(** * chia/rpc/rpc_client.py: the RPC client of a local Chia service

    A shallow embedding of [RpcClient]: the request dispatcher [fetch] with
    its retry loop, the endpoint bindings built on it, and the
    [close]/[await_closed] pair.  Python values are a small inductive type,
    exceptions are data, and the effects of [fetch] (POSTs, the responses
    and bodies it reads, appends to the diagnostic file, sleeps) are
    collected in a trace. *)

From Stdlib Require Import ZArith List String Ascii Bool Lia DecimalString.
From Stdlib.Strings Require Import Byte.
Import ListNotations.
Local Open Scope string_scope.
Local Open Scope Z_scope.
Local Open Scope list_scope.
#[local] Set Warnings "-register-all".

(** ** Python values *)

(** What [json.loads] produces, plus [bytes] (which [get_connections] stores
    into the decoded records).  A [dict] keeps insertion order, so it is an
    association list; a float is its IEEE-754 binary64 bit pattern. *)
Inductive pyval : Type :=
| PNone
| PBool (b : bool)
| PInt (z : Z)
| PFloat (bits : Z)
| PStr (s : string)
| PBytes (b : list byte)
| PList (l : list pyval)
| PDict (d : list (string * pyval)).

(** One interpolated piece of an f-string; a message is the list of its pieces. *)
Inductive piece : Type :=
| Lit (s : string)
| FmtInt (z : Z)
| FmtVal (v : pyval).

Definition fstring := list piece.

Inductive exn : Type :=
| ClientError (what : string)        (* aiohttp.ClientError out of session.post *)
| OSError (filename : string)        (* open(...) failed *)
| ClientResponseError (status : Z)   (* response.raise_for_status() *)
| ContentTypeError                   (* response.json() on a body that is not JSON *)
| KeyError (key : string)
| TypeError
| ValueError (arg : pyval)
| Exception (msg : fstring).

Inductive result (A : Type) : Type :=
| Ok (a : A)
| Raise (e : exn).
Arguments Ok {A} a.
Arguments Raise {A} e.

(** [d[key]] on a dict. *)
Fixpoint dict_get (d : list (string * pyval)) (key : string) : option pyval :=
  match d with
  | [] => None
  | (k, v) :: rest => if String.eqb k key then Some v else dict_get rest key
  end.

(** [d[key] = v] on a dict: an existing key keeps its position. *)
Fixpoint dict_set (d : list (string * pyval)) (key : string) (v : pyval)
  : list (string * pyval) :=
  match d with
  | [] => [(key, v)]
  | (k, x) :: rest =>
      if String.eqb k key then (k, v) :: rest else (k, x) :: dict_set rest key v
  end.

(** [v[key]] for a string key: only a dict can be indexed by a string. *)
Definition subscript (v : pyval) (key : string) : result pyval :=
  match v with
  | PDict d =>
      match dict_get d key with
      | Some x => Ok x
      | None => Raise (KeyError key)
      end
  | _ => Raise TypeError
  end.

(** Python truth value, as [not v] tests it. *)
Definition truthy (v : pyval) : bool :=
  match v with
  | PNone => false
  | PBool b => b
  | PInt z => negb (z =? 0)
  | PFloat bits => negb (Z.land bits (2 ^ 63 - 1) =? 0)
  | PStr s => negb (String.eqb s "")
  | PBytes b => match b with [] => false | _ => true end
  | PList l => match l with [] => false | _ => true end
  | PDict d => match d with [] => false | _ => true end
  end.

(** ** The world [fetch] runs in *)

(** An HTTP response: its status and what [await response.json()] gives. *)
Record response : Type := {
  status : Z;
  json : result pyval
}.

(** The process id, the peer (what the n-th POST of a call yields) and the
    file system (which paths [open(path, "a")] can open). *)
Record world : Type := {
  getpid : Z;
  transport : nat -> result response;
  can_append : string -> bool
}.

Inductive event : Type :=
| EvPost (url : string) (body : pyval)   (* session.post(url, json=body) *)
| EvResponse (st : Z)                    (* the response of that POST arrived *)
| EvAppend (path : string) (line : fstring) (* open(path, "a") and print *)
| EvSleep (secs : Z)                     (* asyncio.sleep(secs) *)
| EvJson (v : pyval).                    (* response.json() decoded v *)

(** How a statement block ends. *)
Inductive completion : Type :=
| Continue
| Return (v : pyval)
| Throw (e : exn).

(** Effectful code: the number of POSTs issued so far is threaded through,
    events are appended, and a block either yields a value or completes
    abruptly. *)
Definition stm (A : Type) : Type := nat -> list event * nat * (A + completion).

Definition ret {A} (a : A) : stm A := fun n => ([], n, inl a).

Definition bind {A B} (m : stm A) (k : A -> stm B) : stm B :=
  fun n =>
    match m n with
    | (t, n', inl a) =>
        match k a n' with
        | (t', n'', r) => ((t ++ t')%list, n'', r)
        end
    | (t, n', inr c) => (t, n', inr c)
    end.

Notation "x <- m ;; k" := (bind m (fun x => k))
  (at level 61, m at next level, right associativity).
Notation "m ;;; k" := (bind m (fun _ => k))
  (at level 61, right associativity).

Definition emit (e : event) : stm unit := fun n => ([e], n, inl tt).
Definition abrupt {A} (c : completion) : stm A := fun n => ([], n, inr c).
Definition raise {A} (e : exn) : stm A := abrupt (Throw e).
Definition lift {A} (r : result A) : stm A :=
  match r with
  | Ok a => ret a
  | Raise e => raise e
  end.
Definition when (b : bool) (m : stm unit) : stm unit := if b then m else ret tt.

(** [session.post(url, json=body, ssl_context=...)]: one request, answered
    by the peer. *)
Definition post (w : world) (url : string) (body : pyval) : stm response :=
  fun n =>
    match transport w n with
    | Ok r => ([EvPost url body; EvResponse (status r)], S n, inl r)
    | Raise e => ([EvPost url body], S n, inr (Throw e))
    end.

(** [with open(path, "a") as f: print(line, file=f)].  The empty path can
    never be opened. *)
Definition append_line (w : world) (path : string) (line : fstring) : stm unit :=
  if String.eqb path "" then raise (OSError path)
  else if can_append w path then emit (EvAppend path line)
  else raise (OSError path).

(** aiohttp's [ClientResponse.raise_for_status]: raises when the status is
    400 or above. *)
Definition raise_for_status (r : response) : stm unit :=
  if 400 <=? status r then raise (ClientResponseError (status r)) else ret tt.

(** [await response.json()] *)
Definition read_json (r : response) : stm pyval :=
  match json r with
  | Ok v => emit (EvJson v) ;;; ret v
  | Raise e => raise e
  end.

(** ** The client *)

Record RpcClient : Type := {
  url : string;
  hostname : string;
  port : Z;
  closing_task : option nat
}.

Definition str_of_port (p : Z) : string :=
  NilZero.string_of_int (Z.to_int p).

(** [RpcClient.create]; the TLS context it loads plays no part in what follows. *)
Definition create (self_hostname : string) (port : Z) : RpcClient :=
  {| url := ("https://" ++ self_hostname ++ ":" ++ str_of_port port ++ "/")%string;
     hostname := self_hostname;
     port := port;
     closing_task := None |}.

Definition retries : list nat := seq 0 5.

(** The two diagnostic lines, [f"{os.getpid()} ====     fetch()ing {url}"]
    and [f"{os.getpid()} ==== 404 fetch()ing {url}"]. *)
Definition first_line (w : world) (target : string) : fstring :=
  [FmtInt (getpid w); Lit " ====     fetch()ing "; Lit target].
Definition retry_line (w : world) (target : string) : fstring :=
  [FmtInt (getpid w); Lit " ==== 404 fetch()ing "; Lit target].

(** The body of the [async with] block of [fetch], for one value of [retry]. *)
Definition attempt (w : world) (target id : string) (request_json : pyval)
    (retry : nat) : stm unit :=
  response <- post w target request_json ;;
  when (Nat.eqb retry 0 && negb (String.eqb id ""))
    (append_line w id (first_line w target)) ;;;
  if (status response =? 404) && negb (Nat.eqb retry (last retries 0%nat)) then
    append_line w id (retry_line w target) ;;;
    emit (EvSleep 1) ;;;
    abrupt Continue
  else
    raise_for_status response ;;;
    res_json <- read_json response ;;
    success <- lift (subscript res_json "success") ;;
    if negb (truthy success) then raise (ValueError res_json)
    else if negb (Nat.eqb retry 0) then
      raise (Exception [Lit "took "; FmtInt (Z.of_nat retry);
                        Lit " retries: "; FmtVal res_json])
    else abrupt (Return res_json).

Definition trace := list (nat * event).

(** [for retry in rs: async with ...: <attempt>; raise Exception("uhhh")];
    a function that falls off its end returns [None]. *)
Fixpoint fetch_loop (w : world) (target id : string) (request_json : pyval)
    (rs : list nat) (n : nat) : trace * nat * result pyval :=
  match rs with
  | [] => ([], n, Ok PNone)
  | retry :: rest =>
      match attempt w target id request_json retry n with
      | (t, n', inl _) =>
          (map (pair retry) t, n', Raise (Exception [Lit "uhhh"]))
      | (t, n', inr Continue) =>
          match fetch_loop w target id request_json rest n' with
          | (t', n'', r) => ((map (pair retry) t ++ t')%list, n'', r)
          end
      | (t, n', inr (Return v)) => (map (pair retry) t, n', Ok v)
      | (t, n', inr (Throw e)) => (map (pair retry) t, n', Raise e)
      end
  end.

(** [RpcClient.fetch]: the effects, each with the attempt it belongs to, and
    the result. *)
Definition fetch (w : world) (self : RpcClient) (path : string)
    (request_json : pyval) (id : string) : trace * result pyval :=
  match fetch_loop w (url self ++ path ++ "?" ++ id)%string id request_json
          retries 0 with
  | (t, _, r) => (t, r)
  end.

(** What lines 60-64 of [fetch] make of a decoded body [res_json] on attempt
    [retry], as one value. *)
Definition verdict (retry : nat) (res_json : pyval) : result pyval :=
  match subscript res_json "success" with
  | Raise e => Raise e
  | Ok success =>
      if negb (truthy success) then Raise (ValueError res_json)
      else if negb (Nat.eqb retry 0) then
        Raise (Exception [Lit "took "; FmtInt (Z.of_nat retry);
                          Lit " retries: "; FmtVal res_json])
      else Ok res_json
  end.

Definition completion_of (r : result pyval) : completion :=
  match r with
  | Ok v => Return v
  | Raise e => Throw e
  end.

Definition is_post (e : event) : bool :=
  match e with
  | EvPost _ _ => true
  | _ => false
  end.

Definition is_json (e : event) : bool :=
  match e with
  | EvJson _ => true
  | _ => false
  end.

(** The POSTs of a trace, by the attempt that issued them. *)
Definition posts (t : trace) : list nat :=
  map fst (filter (fun x => is_post (snd x)) t).

(** ** Hex strings *)

(** One digit of [bytes.hex()]: lower case. *)
Definition hex_digit (n : N) : ascii :=
  if (n <? 10)%N then ascii_of_N (48 + n) else ascii_of_N (87 + n).

(** [b.hex()] *)
Fixpoint hex (b : list byte) : string :=
  match b with
  | [] => ""
  | x :: rest =>
      let n := Byte.to_N x in
      String (hex_digit (n / 16)) (String (hex_digit (n mod 16)) (hex rest))
  end.

(** Modelled from the spec: the value of one digit of a hex string as
    [hexstr_to_bytes] (not among the sources) reads it; the digits are those
    [hex] writes. *)
Definition hex_value (c : ascii) : option N :=
  let n := N_of_ascii c in
  if ((48 <=? n) && (n <=? 57))%N then Some (n - 48)%N
  else if ((97 <=? n) && (n <=? 102))%N then Some (n - 87)%N
  else None.

(** Modelled from the spec: the decoding inside [hexstr_to_bytes], two
    digits a byte. *)
Fixpoint unhex (s : string) : option (list byte) :=
  match s with
  | EmptyString => Some []
  | String c1 (String c2 rest) =>
      match hex_value c1, hex_value c2, unhex rest with
      | Some hi, Some lo, Some b =>
          option_map (fun x => x :: b) (Byte.of_N (16 * hi + lo))
      | _, _, _ => None
      end
  | String _ EmptyString => None
  end.

(** Modelled from the spec: [chia.util.byte_types.hexstr_to_bytes] is not
    among the sources.  The spec has it decode the hex string a [node_id]
    travels as into raw bytes, so that encoding the bytes to hex again
    reproduces the string: the inverse of [hex], two lower-case digits a
    byte, and an error on anything else. *)
Definition hexstr_to_bytes (input_str : pyval) : result (list byte) :=
  match input_str with
  | PStr s =>
      match unhex s with
      | Some b => Ok b
      | None => Raise (ValueError input_str)
      end
  | _ => Raise TypeError
  end.

(** ** Endpoint bindings *)

(** [NodeType] is declared elsewhere; only its [.value] is used. *)
Record NodeType : Type := { value : Z }.

Definition rbind {A B} (r : result A) (k : A -> result B) : result B :=
  match r with
  | Ok a => k a
  | Raise e => Raise e
  end.

(** What [for x in v] goes through. *)
Definition iterate (v : pyval) : result (list pyval) :=
  match v with
  | PList l => Ok l
  | PDict d => Ok (map (fun kv => PStr (fst kv)) d)
  | PStr s => Ok (map (fun c => PStr (String c "")) (list_ascii_of_string s))
  | PBytes b => Ok (map (fun x => PInt (Z.of_N (Byte.to_N x))) b)
  | _ => Raise TypeError
  end.

(** [v[key] = x] for a string key. *)
Definition store (v : pyval) (key : string) (x : pyval) : result pyval :=
  match v with
  | PDict d => Ok (PDict (dict_set d key x))
  | _ => Raise TypeError
  end.

(** [for connection in conns:
       connection["node_id"] = hexstr_to_bytes(connection["node_id"])],
    giving the records as the loop leaves them. *)
Fixpoint decode_node_ids (conns : list pyval) : result (list pyval) :=
  match conns with
  | [] => Ok []
  | connection :: rest =>
      rbind (subscript connection "node_id") (fun node_id =>
      rbind (hexstr_to_bytes node_id) (fun b =>
      rbind (store connection "node_id" (PBytes b)) (fun connection' =>
      rbind (decode_node_ids rest) (fun rest' =>
      Ok (connection' :: rest')))))
  end.

(** [request = {}], with [request["node_type"] = node_type.value] when a
    node type is given. *)
Definition connections_request (node_type : option NodeType) : pyval :=
  match node_type with
  | Some nt => PDict [("node_type", PInt (value nt))]
  | None => PDict []
  end.

(** [RpcClient.get_connections] *)
Definition get_connections (w : world) (self : RpcClient)
    (node_type : option NodeType) : trace * result pyval :=
  let request := connections_request node_type in
  match fetch w self "get_connections" request "" with
  | (t, Raise e) => (t, Raise e)
  | (t, Ok response) =>
      (t,
       rbind (subscript response "connections") (fun connections =>
       rbind (iterate connections) (fun items =>
       rbind (decode_node_ids items) (fun items' =>
       Ok match connections with
          | PList _ => PList items'
          | other => other
          end))))
  end.

(** [RpcClient.open_connection] *)
Definition open_connection (w : world) (self : RpcClient) (host : string)
    (port : Z) : trace * result pyval :=
  fetch w self "open_connection"
    (PDict [("host", PStr host); ("port", PInt port)]) "".

(** [RpcClient.close_connection] *)
Definition close_connection (w : world) (self : RpcClient)
    (node_id : list byte) : trace * result pyval :=
  fetch w self "close_connection" (PDict [("node_id", PStr (hex node_id))]) "".

(** [RpcClient.stop_node] *)
Definition stop_node (w : world) (self : RpcClient) : trace * result pyval :=
  fetch w self "stop_node" (PDict []) "".

(** [RpcClient.healthz] *)
Definition healthz (w : world) (self : RpcClient) : trace * result pyval :=
  fetch w self "healthz" (PDict []) "".

(** ** Shutdown *)

(** The event loop, as far as the client is concerned: the tasks created so
    far, each running [session.close()] with so many suspensions still to
    go, and whether the session is closed. *)
Inductive task : Type :=
| Pending (steps : nat)
| Done.

Record event_loop : Type := {
  session_closed : bool;
  tasks : list task
}.

(** [RpcClient.close]: [asyncio.create_task(self.session.close())] schedules
    the coroutine and hands back its task; nothing of it has run yet. *)
Definition close (close_steps : nat) (self : RpcClient) (L : event_loop)
  : RpcClient * event_loop :=
  ({| url := url self; hostname := hostname self; port := port self;
      closing_task := Some (List.length (tasks L)) |},
   {| session_closed := session_closed L;
      tasks := tasks L ++ [Pending close_steps] |}).

Definition step_task (t : task) : task :=
  match t with
  | Pending 0 => Done
  | Pending (S k) => Pending k
  | Done => Done
  end.

Definition finishes (t : task) : bool :=
  match t with
  | Pending 0 => true
  | _ => false
  end.

(** One turn of the loop: every pending task runs to its next suspension;
    a [session.close()] that runs to its end leaves the session closed. *)
Definition turn (L : event_loop) : event_loop :=
  {| session_closed := session_closed L || existsb finishes (tasks L);
     tasks := map step_task (tasks L) |}.

(** [await task]: goes on at once when the task is done, and otherwise
    leaves the loop to turn until it is.  Gives the loop as the caller finds
    it and the number of turns it was suspended for. *)
Fixpoint await (fuel : nat) (h : nat) (L : event_loop)
  : option (event_loop * nat) :=
  match nth_error (tasks L) h with
  | None => None
  | Some Done => Some (L, 0%nat)
  | Some (Pending _) =>
      match fuel with
      | O => None
      | S fuel' =>
          match await fuel' h (turn L) with
          | Some (L', k) => Some (L', S k)
          | None => None
          end
      end
  end.

(** [RpcClient.await_closed] *)
Definition await_closed (fuel : nat) (self : RpcClient) (L : event_loop)
  : option (event_loop * nat) :=
  match closing_task self with
  | None => Some (L, 0%nat)
  | Some h => await fuel h L
  end.

(** ** Scenarios *)

Definition always_appendable : string -> bool := fun _ => true.
Definition never_appendable : string -> bool := fun _ => false.

Definition client0 : RpcClient := create "localhost" 8555.

Definition answer (st : Z) (body : pyval) : result response :=
  Ok {| status := st; json := Ok body |}.

Definition not_found : result response :=
  Ok {| status := 404; json := Raise ContentTypeError |}.

Definition envelope_ok : pyval := PDict [("success", PBool true)].
Definition envelope_x1 : pyval := PDict [("success", PBool true); ("x", PInt 1)].
Definition envelope_bad : pyval :=
  PDict [("success", PBool false); ("error", PStr "bad")].
Definition envelope_bare : pyval := PDict [("x", PInt 1)].

(** A peer answering every POST the same way. *)
Definition steady (fs : string -> bool) (r : result response) : world :=
  {| getpid := 4242; transport := fun _ => r; can_append := fs |}.

(** 404 on attempts 0 to 3, then 200 and success. *)
Definition late_success : world :=
  {| getpid := 4242;
     transport := fun n => if Nat.ltb n 4 then not_found
                           else answer 200 envelope_ok;
     can_append := always_appendable |}.

(** A peer that lists one connection. *)
Definition envelope_conns : pyval :=
  PDict [("connections",
          PList [PDict [("node_id", PStr "ab01"); ("peer_port", PInt 8444)]]);
         ("success", PBool true)].

(** A record as [get_connections] hands it out, against the record [wire]
    that came in: the same fields, with the hex string of [node_id]
    replaced by the bytes it encodes. *)
Definition node_id_decoded (wire record : pyval) : Prop :=
  exists d s b,
    wire = PDict d /\ dict_get d "node_id" = Some (PStr s) /\
    record = PDict (dict_set d "node_id" (PBytes b)) /\
    subscript record "node_id" = Ok (PBytes b) /\
    hexstr_to_bytes (PStr s) = Ok b /\
    hex b = s.

(** A peer that cannot be reached. *)
Definition refusing : world :=
  steady always_appendable (Raise (ClientError "connection refused")).

(** A peer that answers 200 with [body]. *)
Definition answering (body : pyval) : world :=
  steady always_appendable (answer 200 body).

(** A peer that answers 404 whatever it is asked. *)
Definition absent : world := steady always_appendable not_found.

(** ** Reading a trace *)

Definition is_sleep (e : event) : bool :=
  match e with
  | EvSleep _ => true
  | _ => false
  end.

(** How many times the call slept. *)
Definition sleeps (t : trace) : nat :=
  List.length (filter (fun x => is_sleep (snd x)) t).

(** The lines appended to files, with the file each went to. *)
Definition appends (t : trace) : list (string * fstring) :=
  flat_map (fun x => match snd x with
                     | EvAppend p l => [(p, l)]
                     | _ => []
                     end) t.

(** What the loop makes of the way an attempt ended. *)
Definition result_of (c : completion) : result pyval :=
  match c with
  | Return v => Ok v
  | Throw e => Raise e
  | Continue => Ok PNone
  end.

(** The keys of a dict, in order. *)
Definition keys (d : list (string * pyval)) : list string := map fst d.

(** ** One attempt *)

Ltac run_stm :=
  unfold attempt, bind, post, when, append_line, raise_for_status, read_json,
    lift, raise, abrupt, emit, ret in *;
  change (last retries 0%nat) with 4%nat in *.

(** Split on everything the block tests, in the order it tests it. *)
Ltac attempt_cases w id retry n :=
  run_stm;
  destruct (transport w n) as [resp | e] eqn:Etr;
  [ destruct (Nat.eqb retry 0) eqn:E0, (String.eqb id "") eqn:Eid,
      (can_append w id) eqn:Eca, (status resp =? 404) eqn:E404,
      (Nat.eqb retry 4) eqn:E4, (400 <=? status resp) eqn:E400,
      (json resp) as [res_json | ej] eqn:Ej;
    cbn in *;
    try (destruct (subscript res_json "success") as [success | ek] eqn:Esub;
         cbn in *;
         try (destruct (truthy success) eqn:Etruth; cbn in *))
  | cbn in * ].

Ltac inv_pairs :=
  repeat match goal with
    | H : (_, _) = (_, _) |- _ => inversion H; subst; clear H
    end.

Ltac bool_facts :=
  repeat match goal with
    | H : Nat.eqb _ _ = true |- _ => apply Nat.eqb_eq in H
    | H : Nat.eqb _ _ = false |- _ => apply Nat.eqb_neq in H
    | H : String.eqb _ _ = true |- _ => apply String.eqb_eq in H
    | H : String.eqb _ _ = false |- _ => apply String.eqb_neq in H
    | H : Z.eqb _ _ = true |- _ => apply Z.eqb_eq in H
    | H : Z.eqb _ _ = false |- _ => apply Z.eqb_neq in H
    | H : Z.leb _ _ = true |- _ => apply Z.leb_le in H
    | H : Z.leb _ _ = false |- _ => apply Z.leb_gt in H
    end.

Ltac in_cases :=
  repeat match goal with
    | H : In _ (_ :: _) |- _ => destruct H as [H | H]
    | H : In _ [] |- _ => destruct H
    | H : EvResponse _ = EvResponse _ |- _ => inversion H; subst; clear H
    | H : _ = EvResponse _ |- _ => discriminate H
    end.

Ltac in_trace := cbn; repeat first [left; reflexivity | right].

Section Attempt.
Variables (w : world) (target id : string) (request_json : pyval).

  (** Every path through the block ends in [continue], [return] or an
      exception: the [raise Exception("uhhh")] after it is dead code. *)
Lemma attempt_abrupt retry n :
    exists c, snd (attempt w target id request_json retry n) = inr c.
Proof.
    attempt_cases w id retry n; eauto.
Qed.

  (** An attempt issues exactly one POST, first thing. *)
Lemma attempt_one_post retry n t n' r :
    attempt w target id request_json retry n = (t, n', r) ->
    n' = S n /\
    exists rest, t = EvPost target request_json :: rest /\
                 filter is_post rest = [].
Proof.
    intros H. attempt_cases w id retry n; inv_pairs; split; eauto.
Qed.

  (** Once the body is decoded, the attempt ends with the verdict on it. *)
Lemma attempt_decoded retry n t n' r v :
    attempt w target id request_json retry n = (t, n', r) ->
    In (EvJson v) t ->
    r = inr (completion_of (verdict retry v)) /\
    exists pre, t = (pre ++ [EvJson v])%list /\ filter is_json pre = [].
Proof.
    intros H HIn. unfold verdict.
    attempt_cases w id retry n; inv_pairs; cbn in HIn;
      repeat match goal with
        | H : _ \/ _ |- _ => destruct H
        | H : False |- _ => destruct H
        | H : _ = EvJson _ |- _ => inversion H; subst; clear H
        end.
    all: rewrite ?Esub; cbn; rewrite ?Etruth; cbn.
    all: split; [reflexivity|].
    all: first [ eexists [_; _]; split; reflexivity
               | eexists [_; _; _]; split; reflexivity ].
Qed.

  (** An attempt that ends in [continue] has decoded nothing. *)
Lemma attempt_continue retry n t n' :
    attempt w target id request_json retry n = (t, n', inr Continue) ->
    filter is_json t = [].
Proof.
    intros H. attempt_cases w id retry n; inv_pairs; try discriminate;
      reflexivity.
Qed.

End Attempt.

(** ** The loop *)

Lemma in_map_pair {A} (k k' : nat) (e : A) (t : list A) :
  In (k, e) (map (pair k') t) -> k = k' /\ In e t.
Proof.
  rewrite in_map_iff. intros [x [Hx HIn]]. inversion Hx; subst. auto.
Qed.

Lemma posts_app (t1 t2 : trace) : posts (t1 ++ t2) = (posts t1 ++ posts t2)%list.
Proof. unfold posts. now rewrite filter_app, map_app. Qed.

Lemma posts_attempt (retry : nat) (body : pyval) (target : string) rest :
  filter is_post rest = [] ->
  posts (map (pair retry) (EvPost target body :: rest)) = [retry].
Proof.
  intros H. unfold posts. cbn. f_equal.
  induction rest as [|e rest IH]; cbn in *; [reflexivity|].
  destruct (is_post e); [discriminate|]. auto.
Qed.

Section Loop.
Variables (w : world) (target id : string) (request_json : pyval).

Local Abbreviation attempt' := (attempt w target id request_json).
Local Abbreviation loop := (fetch_loop w target id request_json).

  (** Over attempts [r0, r0+1, ...]: one POST per attempt started, in order,
      and as many requests reach the peer. *)
Lemma fetch_loop_posts m : forall r0 n t n' r,
    loop (seq r0 m) n = (t, n', r) ->
    exists j, (Nat.min 1 m <= j <= m)%nat /\ posts t = seq r0 j /\ n' = (n + j)%nat.
Proof.
    induction m as [|m IH]; intros r0 n t n' r Hrun; cbn in Hrun.
    - inversion Hrun; subst. exists 0%nat. cbn. repeat split; auto with arith.
    - destruct (attempt' r0 n) as [[t0 n0] [u | c]] eqn:Hatt.
      + destruct (attempt_abrupt w target id request_json r0 n) as [c Hc].
        rewrite Hatt in Hc. discriminate.
      + pose proof (attempt_one_post _ _ _ _ _ _ _ _ _ Hatt)
          as [-> (tl & Ht0 & Htl)].
        pose proof (posts_attempt r0 request_json target tl Htl) as Hp.
        rewrite <- Ht0 in Hp. clear Ht0 Htl.
        destruct c as [| v | x].
        * destruct (loop (seq (S r0) m) (S n)) as [[t' n''] r'] eqn:Hrest.
          inversion Hrun; subst.
          destruct (IH _ _ _ _ _ Hrest) as (j & Hj & Hposts & ->).
          exists (S j). rewrite posts_app, Hp, Hposts. cbn.
          repeat split; auto with arith; try lia.
        * inversion Hrun; subst. exists 1%nat. rewrite Hp. cbn.
          repeat split; auto with arith; try lia.
        * inversion Hrun; subst. exists 1%nat. rewrite Hp. cbn.
          repeat split; auto with arith; try lia.
Qed.

  (** Whatever shows up in the trace of the loop over attempts
      [r0, r0+1, ...] was produced by one attempt, which talked to the peer
      in its turn; unless that attempt ended in [continue], it was the last
      one, its completion is the result of the loop and its POST is the
      last POST. *)
Lemma fetch_loop_inv m : forall r0 n t n' r k e,
    loop (seq r0 m) n = (t, n', r) ->
    In (k, e) t ->
    (r0 <= k < r0 + m)%nat /\
    exists t0 c,
      attempt' k (n + (k - r0))%nat = (t0, S (n + (k - r0)), inr c) /\ In e t0 /\
      (forall e', In e' t0 -> In (k, e') t) /\
      (c = Continue \/
       (r = match c with Return v => Ok v | Throw x => Raise x | Continue => r end /\
        posts t = seq r0 (S (k - r0))%nat /\
        exists pre, t = pre ++ map (pair k) t0)).
Proof.
    induction m as [|m IH]; intros r0 n t n' r k e Hrun HIn; cbn in Hrun.
    - inversion Hrun; subst. destruct HIn.
    - destruct (attempt' r0 n) as [[t0 n0] [u | c]] eqn:Hatt.
      + destruct (attempt_abrupt w target id request_json r0 n) as [c Hc].
        rewrite Hatt in Hc. discriminate.
      + pose proof (attempt_one_post _ _ _ _ _ _ _ _ _ Hatt)
          as [-> (tl & Ht0 & Htl)].
        pose proof (posts_attempt r0 request_json target tl Htl) as Hp.
        rewrite <- Ht0 in Hp. clear Ht0 Htl.
        assert (Here : forall c', c = c' -> In (r0, e) (map (pair r0) t0) ->
                  attempt' r0 (n + (r0 - r0))%nat = (t0, S (n + (r0 - r0)), inr c')
                  /\ In e t0).
        { intros c' <- Hi. apply in_map_pair in Hi as [_ Hi].
          rewrite Nat.sub_diag, Nat.add_0_r. auto. }
        destruct c as [| v | x].
        * destruct (loop (seq (S r0) m) (S n)) as [[t' n''] r'] eqn:Hrest.
          inversion Hrun; subst. apply in_app_or in HIn as [HIn | HIn].
          -- pose proof HIn as Hk. apply in_map_pair in Hk as [-> _].
             split; [lia|]. exists t0, Continue.
             destruct (Here _ eq_refl HIn). repeat split; auto.
             intros e' He'. apply in_or_app. left. now apply in_map.
          -- destruct (IH _ _ _ _ _ _ _ Hrest HIn)
               as (Hk & tk & c & Ha & Hi & Hincl & Hc).
             replace (S n + (k - S r0))%nat with (n + (k - r0))%nat in Ha by lia.
             split; [lia|]. exists tk, c. repeat split; auto.
             { intros e' He'. apply in_or_app. right. auto. }
             destruct Hc as [Hc | (Hr & Hposts & pre & Hpre)]; [auto | right].
             split; [exact Hr|]. split.
             ++ rewrite posts_app, Hp, Hposts.
                replace (S (k - r0))%nat with (S (S (k - S r0)))%nat by lia.
                reflexivity.
             ++ exists (map (pair r0) t0 ++ pre).
                rewrite Hpre. now rewrite app_assoc.
        * inversion Hrun; subst.
          pose proof HIn as Hk. apply in_map_pair in Hk as [-> _].
          split; [lia|]. exists t0, (Return v).
          destruct (Here _ eq_refl HIn). repeat split; auto.
          { intros e' He'. now apply in_map. }
          right. rewrite Nat.sub_diag. repeat split; auto. now exists [].
        * inversion Hrun; subst.
          pose proof HIn as Hk. apply in_map_pair in Hk as [-> _].
          split; [lia|]. exists t0, (Throw x).
          destruct (Here _ eq_refl HIn). repeat split; auto.
          { intros e' He'. now apply in_map. }
          right. rewrite Nat.sub_diag. repeat split; auto. now exists [].
Qed.

End Loop.

(** ** The call *)

Section Fetch.
Variables (w : world) (self : RpcClient) (path : string)
    (request_json : pyval) (id : string).

Local Abbreviation target := (url self ++ path ++ "?" ++ id)%string.

  (** An event of attempt [k] comes from the block run for [retry = k]
      against the [k]-th answer of the peer. *)
Lemma fetch_inv t r k e :
    fetch w self path request_json id = (t, r) ->
    In (k, e) t ->
    (k < 5)%nat /\
    exists t0 c,
      attempt w target id request_json k k = (t0, S k, inr c) /\ In e t0 /\
      (forall e', In e' t0 -> In (k, e') t) /\
      (c = Continue \/
       (r = match c with Return v => Ok v | Throw x => Raise x | Continue => r end /\
        posts t = seq 0 (S k) /\
        exists pre, t = pre ++ map (pair k) t0)).
Proof.
    unfold fetch, retries.
    destruct (fetch_loop w target id request_json (seq 0 5) 0)
      as [[t' n'] r'] eqn:Hrun.
    intros Heq HIn. inversion Heq; subst.
    destruct (fetch_loop_inv _ _ _ _ _ _ _ _ _ _ _ _ Hrun HIn)
      as (Hk & t0 & c & Ha & Hi & Hincl & Hc).
    rewrite Nat.sub_0_r in *. cbn [Nat.add] in *.
    split; [lia|]. exists t0, c. auto.
Qed.

  (** The decoded body settles the call, and nothing follows it. *)
Lemma fetch_decoded t r k v :
    fetch w self path request_json id = (t, r) ->
    In (k, EvJson v) t ->
    r = verdict k v /\ posts t = seq 0 (S k) /\
    exists pre, t = pre ++ [(k, EvJson v)].
Proof.
    intros Hrun HIn.
    destruct (fetch_inv _ _ _ _ Hrun HIn) as (_ & t0 & c & Hatt & Hi & _ & Hc).
    destruct (attempt_decoded _ _ _ _ _ _ _ _ _ _ Hatt Hi)
      as [Hv (pre0 & -> & _)].
    inversion Hv; subst c; clear Hv.
    destruct Hc as [Hc | (Hr & Hposts & pre & Hpre)].
    - destruct (verdict k v); discriminate.
    - split; [destruct (verdict k v); exact Hr|]. split; [exact Hposts|].
      exists (pre ++ map (pair k) pre0).
      rewrite Hpre, map_app. cbn. now rewrite app_assoc.
Qed.

  (** One POST per attempt, in order, and no more than five of them. *)
Lemma fetch_posts t r :
    fetch w self path request_json id = (t, r) ->
    exists j, (1 <= j <= 5)%nat /\ posts t = seq 0 j.
Proof.
    unfold fetch, retries.
    destruct (fetch_loop w target id request_json (seq 0 5) 0)
      as [[t' n'] r'] eqn:Hrun.
    intros Heq. inversion Heq; subst.
    destruct (fetch_loop_posts _ _ _ _ _ _ _ _ _ _ Hrun) as (j & Hj & Hp & _).
    exists j. split; [cbn in Hj; lia | exact Hp].
Qed.

End Fetch.

(** ** From the answer to the body *)

Section Answered.
Variables (w : world) (self : RpcClient) (path : string)
  (request_json : pyval) (id : string).

Local Abbreviation target_for := (url self ++ path ++ "?" ++ id)%string.

(** The answer of the peer is seen by the attempt. *)
Lemma attempt_response retry n t n' r resp0 :
  attempt w target_for id request_json retry n = (t, n', r) ->
  transport w n = Ok resp0 ->
  In (EvResponse (status resp0)) t.
Proof.
  intros H Htr.
  attempt_cases w id retry n; inversion Htr; subst; inv_pairs; in_trace.
Qed.

(** An answer with a status below 400 and a body that decodes is decoded,
    unless the first diagnostic write stands in the way: that one is made
    on attempt 0 with a non-empty id, before the status is looked at. *)
Lemma attempt_decodes retry n t n' r resp0 v :
  attempt w target_for id request_json retry n = (t, n', r) ->
  transport w n = Ok resp0 ->
  status resp0 < 400 ->
  json resp0 = Ok v ->
  (retry <> 0%nat \/ id = "" \/ can_append w id = true) ->
  In (EvJson v) t.
Proof.
  intros H Htr Hst Hjson Hlog.
  attempt_cases w id retry n; inversion Htr; subst; inv_pairs; bool_facts;
    try lia; try congruence; try (exfalso; intuition congruence);
    rewrite Ej in Hjson; inversion Hjson; subst; in_trace.
Qed.

(** The first attempt is always made, and sees the first answer. *)
Lemma fetch_first_response t r resp0 :
  fetch w self path request_json id = (t, r) ->
  transport w 0%nat = Ok resp0 ->
  In (0%nat, EvResponse (status resp0)) t.
Proof.
  intros Hrun Htr.
  destruct (fetch_posts _ _ _ _ _ _ _ Hrun) as (j & Hj & Hp).
  assert (H0 : In 0%nat (posts t)) by (rewrite Hp; apply in_seq; lia).
  unfold posts in H0. apply in_map_iff in H0 as [[k e] [Hk He]].
  cbn in Hk. subst k. apply filter_In in He as [HIn _].
  destruct (fetch_inv _ _ _ _ _ _ _ _ _ Hrun HIn) as (_ & t0 & c & Ha & _ & Hincl & _).
  apply Hincl. eapply attempt_response; eauto.
Qed.

(** An attempt that was answered with a status below 400 and a body that
    decodes has decoded it, with the same proviso. *)
Lemma fetch_answered_decodes t r k resp0 v :
  fetch w self path request_json id = (t, r) ->
  In (k, EvResponse (status resp0)) t ->
  transport w k = Ok resp0 ->
  status resp0 < 400 ->
  json resp0 = Ok v ->
  (k <> 0%nat \/ id = "" \/ can_append w id = true) ->
  In (k, EvJson v) t.
Proof.
  intros Hrun HIn Htr Hst Hjson Hlog.
  destruct (fetch_inv _ _ _ _ _ _ _ _ _ Hrun HIn) as (_ & t0 & c & Ha & _ & Hincl & _).
  apply Hincl. eapply attempt_decodes; eauto.
Qed.

End Answered.

(** ** The dispatcher's contract *)

(** C1.  When a 2xx response whose decoded envelope has a truthy [success]
    arrives on an attempt other than attempt 0, [fetch] does not return the
    envelope: it raises the exception whose message carries the number of
    retries and the decoded envelope. *)
Theorem fetch_late_success_raises w self path request_json id t r k st d success :
  fetch w self path request_json id = (t, r) ->
  In (k, EvResponse st) t -> 200 <= st < 300 ->
  In (k, EvJson (PDict d)) t ->
  dict_get d "success" = Some success -> truthy success = true ->
  k <> 0%nat ->
  r = Raise (Exception [Lit "took "; FmtInt (Z.of_nat k); Lit " retries: ";
                        FmtVal (PDict d)]) /\
  r <> Ok (PDict d).
Proof.
  intros Hrun _ _ Hjson Hget Htruth Hk.
  destruct (fetch_decoded _ _ _ _ _ _ _ _ _ Hrun Hjson) as (-> & _ & _).
  unfold verdict, subscript. rewrite Hget, Htruth. cbn.
  destruct k as [|k]; [congruence|]. cbn. split; [reflexivity | discriminate].
Qed.

(** 404 on attempts 0 to 3 and 200 with success on attempt 4: an exception
    reporting 4 retries. *)
Lemma fetch_late_success_raises_witness :
  snd (fetch late_success client0 "healthz" (PDict []) "rpc.log") =
    Raise (Exception [Lit "took "; FmtInt 4; Lit " retries: ";
                      FmtVal envelope_ok]) /\
  snd (fetch late_success client0 "healthz" (PDict []) "rpc.log") <>
    Ok envelope_ok.
Proof.
  apply (fetch_late_success_raises late_success client0 "healthz" (PDict [])
           "rpc.log"
           (fst (fetch late_success client0 "healthz" (PDict []) "rpc.log"))
           _ 4%nat 200 [("success", PBool true)] (PBool true)).
  - reflexivity.
  - in_trace.
  - lia.
  - in_trace.
  - reflexivity.
  - reflexivity.
  - discriminate.
Defined.

(** C2, as the code has it.  When the first attempt receives a 2xx response
    whose body decodes to an object without a [success] field, and the id
    is empty or names a file that can be opened for appending, [fetch]
    fails with the [KeyError] of the lookup. *)
Theorem fetch_missing_success_raises w self path request_json id t r resp d :
  fetch w self path request_json id = (t, r) ->
  transport w 0%nat = Ok resp ->
  200 <= status resp < 300 ->
  json resp = Ok (PDict d) ->
  dict_get d "success" = None ->
  (id = "" \/ can_append w id = true) ->
  r = Raise (KeyError "success").
Proof.
  intros Hrun Htr Hst Hjson Hget Hlog.
  pose proof (fetch_first_response _ _ _ _ _ _ _ _ Hrun Htr) as Hresp.
  assert (Hdec : In (0%nat, EvJson (PDict d)) t).
  { eapply fetch_answered_decodes; eauto; lia. }
  destruct (fetch_decoded _ _ _ _ _ _ _ _ _ Hrun Hdec) as (-> & _ & _).
  unfold verdict, subscript. now rewrite Hget.
Qed.

Lemma fetch_missing_success_raises_witness :
  snd (fetch (steady never_appendable (answer 200 envelope_bare)) client0
         "healthz" (PDict []) "") = Raise (KeyError "success").
Proof.
  apply (fetch_missing_success_raises
           (steady never_appendable (answer 200 envelope_bare)) client0
           "healthz" (PDict []) ""
           (fst (fetch (steady never_appendable (answer 200 envelope_bare))
                   client0 "healthz" (PDict []) ""))
           _ {| status := 200; json := Ok envelope_bare |} [("x", PInt 1)]).
  - reflexivity.
  - reflexivity.
  - cbn. lia.
  - reflexivity.
  - reflexivity.
  - left. reflexivity.
Defined.

(** C2 as claimed fails: a first attempt answered 200 with [{"x": 1}] does
    not return the envelope.  With the empty id it ends in the [KeyError];
    with an id that cannot be opened it ends in the error of the first
    diagnostic write, before the body is looked at. *)
Lemma fetch_missing_success_counterexample :
  let run := fetch (steady never_appendable (answer 200 envelope_bare)) client0
               "healthz" (PDict []) "" in
  let unwritable := fetch (steady never_appendable (answer 200 envelope_bare))
                      client0 "healthz" (PDict []) "rpc.log" in
  (In (0%nat, EvResponse 200) (fst run) /\
   In (0%nat, EvJson envelope_bare) (fst run) /\
   subscript envelope_bare "success" = Raise (KeyError "success") /\
   snd run = Raise (KeyError "success") /\
   snd run <> Ok envelope_bare) /\
  (In (0%nat, EvResponse 200) (fst unwritable) /\
   snd unwritable = Raise (OSError "rpc.log") /\
   snd unwritable <> Ok envelope_bare /\
   snd unwritable <> Raise (KeyError "success")).
Proof.
  cbv zeta. repeat split; try reflexivity; try discriminate; in_trace.
Qed.

(** C4, as the code has it.  When an attempt receives a 2xx response whose
    body decodes to an envelope with [success] equal to false, and the
    diagnostic write of that attempt does not fail (any attempt after the
    first, or the first with an id that is empty or names a file that can be
    opened for appending), [fetch] raises [ValueError] carrying the whole
    envelope, and the POST of that attempt is the last one. *)
Theorem fetch_success_false_raises w self path request_json id t r k resp d :
  fetch w self path request_json id = (t, r) ->
  In (k, EvResponse (status resp)) t ->
  transport w k = Ok resp ->
  200 <= status resp < 300 ->
  json resp = Ok (PDict d) ->
  dict_get d "success" = Some (PBool false) ->
  (k <> 0%nat \/ id = "" \/ can_append w id = true) ->
  r = Raise (ValueError (PDict d)) /\
  posts t = seq 0 (S k) /\
  exists pre, t = pre ++ [(k, EvJson (PDict d))].
Proof.
  intros Hrun Hresp Htr Hst Hjson Hget Hlog.
  assert (Hdec : In (k, EvJson (PDict d)) t).
  { eapply fetch_answered_decodes; eauto; lia. }
  destruct (fetch_decoded _ _ _ _ _ _ _ _ _ Hrun Hdec) as (-> & Hp & Hpre).
  unfold verdict, subscript. rewrite Hget. cbn. auto.
Qed.

Lemma fetch_success_false_raises_witness :
  let run := fetch (steady always_appendable (answer 200 envelope_bad)) client0
               "open_connection" (PDict []) "" in
  snd run = Raise (ValueError envelope_bad) /\
  posts (fst run) = [0%nat] /\
  exists pre, fst run = pre ++ [(0%nat, EvJson envelope_bad)].
Proof.
  cbv zeta.
  apply (fetch_success_false_raises
           (steady always_appendable (answer 200 envelope_bad)) client0
           "open_connection" (PDict []) "" _ _ 0%nat
           {| status := 200; json := Ok envelope_bad |}
           [("success", PBool false); ("error", PStr "bad")]).
  - reflexivity.
  - in_trace.
  - reflexivity.
  - cbn. lia.
  - reflexivity.
  - reflexivity.
  - right. left. reflexivity.
Defined.

(** C4 as claimed fails on the first attempt of a call whose id cannot be
    opened: the 200 answer with [success] false is received, and the call
    ends in the error of the diagnostic write, not in [ValueError]. *)
Lemma fetch_success_false_counterexample :
  let w := steady never_appendable (answer 200 envelope_bad) in
  let run := fetch w client0 "open_connection" (PDict []) "rpc.log" in
  transport w 0%nat = answer 200 envelope_bad /\
  subscript envelope_bad "success" = Ok (PBool false) /\
  In (0%nat, EvResponse 200) (fst run) /\
  snd run = Raise (OSError "rpc.log") /\
  snd run <> Raise (ValueError envelope_bad).
Proof.
  cbv zeta. repeat split; try reflexivity; try discriminate; in_trace.
Qed.

(** C5, as the code has it.  When the first attempt receives a 200 response
    whose body decodes to [{"success": true, "x": 1}], and the id is empty
    or names a file that can be opened for appending, [fetch] returns that
    envelope. *)
Theorem fetch_first_success_returns w self path request_json id t r resp :
  fetch w self path request_json id = (t, r) ->
  transport w 0%nat = Ok resp ->
  status resp = 200 ->
  json resp = Ok envelope_x1 ->
  (id = "" \/ can_append w id = true) ->
  r = Ok envelope_x1.
Proof.
  intros Hrun Htr Hst Hjson Hlog.
  pose proof (fetch_first_response _ _ _ _ _ _ _ _ Hrun Htr) as Hresp.
  assert (Hdec : In (0%nat, EvJson envelope_x1) t).
  { eapply fetch_answered_decodes; eauto; lia. }
  destruct (fetch_decoded _ _ _ _ _ _ _ _ _ Hrun Hdec) as (-> & _ & _).
  reflexivity.
Qed.

Lemma fetch_first_success_returns_witness :
  snd (fetch (steady always_appendable (answer 200 envelope_x1)) client0
         "healthz" (PDict []) "rpc.log") = Ok envelope_x1.
Proof.
  apply (fetch_first_success_returns
           (steady always_appendable (answer 200 envelope_x1)) client0
           "healthz" (PDict []) "rpc.log"
           (fst (fetch (steady always_appendable (answer 200 envelope_x1))
                   client0 "healthz" (PDict []) "rpc.log"))
           _ {| status := 200; json := Ok envelope_x1 |}).
  - reflexivity.
  - reflexivity.
  - reflexivity.
  - reflexivity.
  - right. reflexivity.
Defined.

(** C5 as claimed fails when the id cannot be opened: the first attempt
    receives 200 with [{"success": true, "x": 1}], and the call ends in the
    error of the diagnostic write instead of returning the envelope. *)
Lemma fetch_first_success_counterexample :
  let w := steady never_appendable (answer 200 envelope_x1) in
  let run := fetch w client0 "healthz" (PDict []) "rpc.log" in
  transport w 0%nat = answer 200 envelope_x1 /\
  In (0%nat, EvResponse 200) (fst run) /\
  snd run = Raise (OSError "rpc.log") /\
  snd run <> Ok envelope_x1.
Proof.
  cbv zeta. repeat split; try reflexivity; try discriminate; in_trace.
Qed.

(** ** Statuses and the diagnostic file *)

Section Diagnostics.
Variables (w : world) (target id : string) (request_json : pyval).

  (** A status of 400 or more other than 404 ends the attempt in the
      HTTP-status error, provided the first diagnostic write went through. *)
Lemma attempt_http_error retry n t n' r st :
    attempt w target id request_json retry n = (t, n', r) ->
    In (EvResponse st) t ->
    400 <= st -> st <> 404 ->
    (retry <> 0%nat \/ id = "" \/ can_append w id = true) ->
    r = inr (Throw (ClientResponseError st)).
Proof.
    intros H HIn H400 H404 Hlog.
    attempt_cases w id retry n; inv_pairs; in_cases; bool_facts;
      try reflexivity; try lia; try (exfalso; intuition congruence).
Qed.

  (** On attempt 0 with a non-empty id the file named by the id is opened
      for appending as soon as the response is there. *)
Lemma attempt_first_line n t n' r st :
    attempt w target id request_json 0 n = (t, n', r) ->
    In (EvResponse st) t ->
    id <> "" ->
    if can_append w id then In (EvAppend id (first_line w target)) t
    else r = inr (Throw (OSError id)) /\
         t = [EvPost target request_json; EvResponse st].
Proof.
    intros H HIn Hid. unfold first_line.
    attempt_cases w id 0%nat n; inv_pairs; in_cases; bool_facts;
      try discriminate; try congruence; try (split; reflexivity); in_trace.
Qed.

  (** On a 404 before the last attempt the file named by the id is opened
      for appending whatever the id is: the attempt goes on to sleep and
      [continue] only if that works. *)
Lemma attempt_retry_line retry n t n' r :
    attempt w target id request_json retry n = (t, n', r) ->
    In (EvResponse 404) t ->
    retry <> 4%nat ->
    if negb (String.eqb id "") && can_append w id
    then In (EvAppend id (retry_line w target)) t /\ In (EvSleep 1) t /\
       r = inr Continue
    else r = inr (Throw (OSError id)) /\ ~ In (EvSleep 1) t.
Proof.
    intros H HIn Hretry. unfold retry_line.
    attempt_cases w id retry n; inv_pairs; in_cases; bool_facts;
      try discriminate; try congruence; try lia;
      try (split; [reflexivity | cbn; intuition discriminate]);
      try (repeat split; in_trace).
Qed.

End Diagnostics.

(** C6, as the code has it.  [fetch] issues one POST per attempt, for
    attempts 0, 1, ... in order and five at most; a status of 400 or more
    other than 404, on an attempt whose diagnostic write did not fail
    (any attempt but the first, or an empty or appendable id), makes the
    call fail with the HTTP-status error carrying that status, and the POST
    of that attempt is the last one. *)
Theorem fetch_posts_and_http_errors w self path request_json id t r :
  fetch w self path request_json id = (t, r) ->
  (exists j, (1 <= j <= 5)%nat /\ posts t = seq 0 j) /\
  (forall k st,
      In (k, EvResponse st) t ->
      400 <= st -> st <> 404 ->
      (k <> 0%nat \/ id = "" \/ can_append w id = true) ->
      r = Raise (ClientResponseError st) /\ posts t = seq 0 (S k)).
Proof.
  intros Hrun. split; [exact (fetch_posts _ _ _ _ _ _ _ Hrun)|].
  intros k st HIn H400 H404 Hlog.
  destruct (fetch_inv _ _ _ _ _ _ _ _ _ Hrun HIn)
    as (_ & t0 & c & Hatt & Hi & _ & Hc).
  pose proof (attempt_http_error _ _ _ _ _ _ _ _ _ _ Hatt Hi H400 H404 Hlog) as Hr.
  inversion Hr; subst c.
  destruct Hc as [Hc | (-> & Hp & _)]; [discriminate | auto].
Qed.

(** Statuses below 400 that are not 2xx go on to the decoding of the body,
    and a first diagnostic write that fails comes before the status is
    looked at. *)
Lemma fetch_posts_and_http_errors_counterexample :
  let redirected := fetch (steady always_appendable (answer 300 envelope_ok))
                      client0 "healthz" (PDict []) "" in
  let unwritable := fetch (steady never_appendable (answer 500 envelope_ok))
                      client0 "healthz" (PDict []) "rpc.log" in
  (In (0%nat, EvResponse 300) (fst redirected) /\
   ~ 200 <= 300 < 300 /\ 300 <> 404 /\
   snd redirected = Ok envelope_ok /\
   snd redirected <> Raise (ClientResponseError 300)) /\
  (In (0%nat, EvResponse 500) (fst unwritable) /\
   snd unwritable = Raise (OSError "rpc.log") /\
   snd unwritable <> Raise (ClientResponseError 500)).
Proof.
  cbv zeta. repeat split; try reflexivity; try discriminate; try lia; in_trace.
Qed.

(** 500 on attempt 0: the HTTP-status error, after a single POST. *)
Lemma fetch_posts_and_http_errors_witness :
  let run := fetch (steady always_appendable (answer 500 envelope_ok)) client0
               "stop_node" (PDict []) "" in
  (exists j, (1 <= j <= 5)%nat /\ posts (fst run) = seq 0 j) /\
  snd run = Raise (ClientResponseError 500) /\ posts (fst run) = [0%nat].
Proof.
  cbv zeta.
  destruct (fetch_posts_and_http_errors
              (steady always_appendable (answer 500 envelope_ok)) client0
              "stop_node" (PDict []) "" _ _ eq_refl) as [Hposts Herr].
  split; [exact Hposts|].
  apply (Herr 0%nat 500).
  - in_trace.
  - lia.
  - lia.
  - right. left. reflexivity.
Defined.

(** C3, at the failing input.  With the empty id, a 404 on the first
    attempt ends the call in the error of [open("", "a")]: one POST, no
    sleep, no second attempt. *)
Theorem fetch_empty_id_404_raises w self path request_json resp :
  transport w 0%nat = Ok resp ->
  status resp = 404 ->
  fetch w self path request_json "" =
    ([(0%nat, EvPost (url self ++ path ++ "?")%string request_json);
      (0%nat, EvResponse 404)],
     Raise (OSError "")).
Proof.
  intros Htr Hst. unfold fetch, retries. cbn [seq fetch_loop].
  unfold attempt at 1. unfold bind, post. rewrite Htr, Hst. reflexivity.
Qed.

Lemma fetch_empty_id_404_raises_witness :
  fetch (steady always_appendable not_found) client0 "healthz" (PDict []) "" =
    ([(0%nat, EvPost "https://localhost:8555/healthz?" (PDict []));
      (0%nat, EvResponse 404)],
     Raise (OSError "")).
Proof.
  apply (fetch_empty_id_404_raises (steady always_appendable not_found) client0
           "healthz" (PDict []) {| status := 404; json := Raise ContentTypeError |}).
  - reflexivity.
  - reflexivity.
Defined.

(** C10.  The id is used as the path of a file.  On the first attempt with
    a non-empty id, once the response is there, the file is opened for
    appending and the first diagnostic line written, and the call fails with
    the file-system error if it cannot be opened.  On a 404 before the last
    attempt the file named by the id is opened whether or not the id is
    empty: the retry line is written and the sleep done if the id is a path
    that can be opened, and the call fails with the file-system error if
    not, the empty id included. *)
Theorem fetch_id_is_a_path w self path request_json id t r :
  fetch w self path request_json id = (t, r) ->
  let target := (url self ++ path ++ "?" ++ id)%string in
  (forall st,
      In (0%nat, EvResponse st) t -> id <> "" ->
      if can_append w id
      then In (0%nat, EvAppend id (first_line w target)) t
      else r = Raise (OSError id)) /\
  (forall k,
      In (k, EvResponse 404) t -> k <> 4%nat ->
      if negb (String.eqb id "") && can_append w id
      then In (k, EvAppend id (retry_line w target)) t /\ In (k, EvSleep 1) t
      else r = Raise (OSError id)).
Proof.
  intros Hrun target. split.
  - intros st HIn Hid.
    destruct (fetch_inv _ _ _ _ _ _ _ _ _ Hrun HIn)
      as (_ & t0 & c & Hatt & Hi & Hincl & Hc).
    pose proof (attempt_first_line _ _ _ _ _ _ _ _ _ Hatt Hi Hid) as Hlog.
    destruct (can_append w id); [auto|].
    destruct Hlog as [Hr _]. inversion Hr; subst c.
    destruct Hc as [Hc | (-> & _)]; [discriminate | reflexivity].
  - intros k HIn Hk.
    destruct (fetch_inv _ _ _ _ _ _ _ _ _ Hrun HIn)
      as (_ & t0 & c & Hatt & Hi & Hincl & Hc).
    pose proof (attempt_retry_line _ _ _ _ _ _ _ _ _ Hatt Hi Hk) as Hlog.
    destruct (negb (String.eqb id "") && can_append w id).
    + destruct Hlog as (Ha & Hs & _). auto.
    + destruct Hlog as [Hr _]. inversion Hr; subst c.
      destruct Hc as [Hc | (-> & _)]; [discriminate | reflexivity].
Qed.

(** ** Endpoint bindings *)

Lemma hex_value_digit c n :
  hex_value c = Some n -> (n < 16)%N /\ hex_digit n = c.
Proof.
  destruct c as [[] [] [] [] [] [] [] []]; cbv; intros H;
    try discriminate H; inversion H; subst; split; reflexivity.
Qed.

Lemma hex_digit_value n : (n < 16)%N -> hex_value (hex_digit n) = Some n.
Proof.
  intros H.
  assert (Hn : In n (map N.of_nat (seq 0 16))).
  { apply in_map_iff. exists (N.to_nat n). split; [lia|].
    apply in_seq. lia. }
  cbn in Hn. repeat (destruct Hn as [<- | Hn]; [reflexivity|]). destruct Hn.
Qed.

Lemma unhex_pair c1 c2 rest :
  unhex (String c1 (String c2 rest)) =
    match hex_value c1, hex_value c2, unhex rest with
    | Some hi, Some lo, Some b =>
        option_map (fun x => x :: b) (Byte.of_N (16 * hi + lo))
    | _, _, _ => None
    end.
Proof. reflexivity. Qed.

Lemma hex_cons x b :
  hex (x :: b) =
    String (hex_digit (Byte.to_N x / 16))
      (String (hex_digit (Byte.to_N x mod 16)) (hex b)).
Proof. reflexivity. Qed.

(** What [hexstr_to_bytes] accepts is what [hex] writes. *)
Lemma unhex_hex b : forall s, unhex s = Some b -> hex b = s.
Proof.
  induction b as [|x b IH]; intros s H.
  - destruct s as [|c1 [|c2 rest]]; [reflexivity | discriminate H |].
    rewrite unhex_pair in H.
    destruct (hex_value c1), (hex_value c2), (unhex rest); try discriminate H.
    destruct (Byte.of_N _); discriminate H.
  - destruct s as [|c1 [|c2 rest]]; [discriminate H | discriminate H |].
    rewrite unhex_pair in H.
    destruct (hex_value c1) as [hi|] eqn:E1; [|discriminate H].
    destruct (hex_value c2) as [lo|] eqn:E2; [|discriminate H].
    destruct (unhex rest) as [b0|] eqn:E3; [|discriminate H].
    destruct (Byte.of_N (16 * hi + lo)) as [x0|] eqn:E4; [|discriminate H].
    unfold option_map in H. inversion H; subst x0 b0; clear H.
    apply Byte.to_of_N in E4.
    apply hex_value_digit in E1 as [Hhi <-].
    apply hex_value_digit in E2 as [Hlo <-].
    rewrite hex_cons, E4, (IH rest E3).
    replace ((16 * hi + lo) / 16)%N with hi
      by (apply N.div_unique with lo; [exact Hlo | reflexivity]).
    replace ((16 * hi + lo) mod 16)%N with lo
      by (apply N.mod_unique with hi; [exact Hlo | reflexivity]).
    reflexivity.
Qed.

(** Everything [hex] writes is accepted, and decodes to the bytes it came
    from. *)
Lemma hex_unhex b : unhex (hex b) = Some b.
Proof.
  induction b as [|x b IH]; [reflexivity|].
  rewrite hex_cons, unhex_pair. pose proof (Byte.to_N_bounded x) as Hx.
  rewrite !hex_digit_value, IH.
  - rewrite <- N.div_mod by discriminate. now rewrite Byte.of_to_N.
  - apply N.mod_lt. discriminate.
  - apply N.Div0.div_lt_upper_bound. lia.
Qed.

Lemma dict_get_set d key x v :
  dict_get d key = Some v -> dict_get (dict_set d key x) key = Some x.
Proof.
  induction d as [|[k y] d IH]; cbn; [discriminate|].
  destruct (String.eqb k key) eqn:E; cbn; rewrite E; auto.
Qed.

Lemma decode_node_ids_spec items : forall items',
  decode_node_ids items = Ok items' -> Forall2 node_id_decoded items items'.
Proof.
  induction items as [|connection rest IH]; intros items' H; cbn in H.
  - inversion H. constructor.
  - destruct connection as [| | | | | | |d]; try discriminate H.
    cbn in H. destruct (dict_get d "node_id") as [node_id|] eqn:Hget;
      [|discriminate H].
    cbn in H. destruct node_id as [| | | |s| | |]; try discriminate H.
    cbn in H. destruct (unhex s) as [b|] eqn:Hs; [|discriminate H].
    cbn in H. destruct (decode_node_ids rest) as [rest'|]; [|discriminate H].
    inversion H; subst. constructor; [|auto].
    exists d, s, b. repeat split; auto.
    + cbn. now rewrite (dict_get_set _ _ _ _ Hget).
    + cbn. now rewrite Hs.
    + now apply unhex_hex.
Qed.

(** C7.  In every result [get_connections] returns, each record is the
    record the peer sent with its [node_id] decoded from the hex string into
    bytes, and the hex of those bytes is the string the peer sent. *)
Theorem get_connections_decodes_node_ids w self node_type t result :
  get_connections w self node_type = (t, Ok result) ->
  exists envelope connections items items',
    fetch w self "get_connections" (connections_request node_type) "" =
      (t, Ok envelope) /\
    subscript envelope "connections" = Ok connections /\
    iterate connections = Ok items /\
    iterate result = Ok items' /\
    Forall2 node_id_decoded items items'.
Proof.
  unfold get_connections. cbv zeta.
  destruct (fetch w self "get_connections" (connections_request node_type) "")
    as [t' [envelope | e]]; [|discriminate].
  intros H. inversion H as [[Ht Hres]]; subst t'. clear H.
  destruct (subscript envelope "connections") as [connections|] eqn:Hc;
    [|discriminate]. cbn in Hres.
  destruct (iterate connections) as [items|] eqn:Hi; [|discriminate].
  cbn in Hres.
  destruct (decode_node_ids items) as [items'|] eqn:Hd; [|discriminate].
  cbn in Hres. inversion Hres as [Hr]; clear Hres.
  pose proof (decode_node_ids_spec _ _ Hd) as Hall.
  exists envelope, connections, items, items'. repeat split; auto.
  subst result. clear Hall Hc.
  destruct connections as [| | | |s|b|l|d]; try discriminate Hi;
    cbn in Hi; inversion Hi; subst items; clear Hi.
  - destruct s; cbn in Hd; [inversion Hd; reflexivity | discriminate Hd].
  - destruct b; cbn in Hd; [inversion Hd; reflexivity | discriminate Hd].
  - reflexivity.
  - destruct d; cbn in Hd; [inversion Hd; reflexivity | discriminate Hd].
Qed.

Lemma get_connections_decodes_node_ids_witness :
  exists envelope connections items items',
    fetch (steady always_appendable (answer 200 envelope_conns)) client0
      "get_connections" (connections_request None) "" =
      (fst (get_connections (steady always_appendable (answer 200 envelope_conns))
              client0 None), Ok envelope) /\
    subscript envelope "connections" = Ok connections /\
    iterate connections = Ok items /\
    iterate (PList [PDict [("node_id", PBytes [xab; x01]);
                           ("peer_port", PInt 8444)]]) = Ok items' /\
    Forall2 node_id_decoded items items'.
Proof.
  apply (get_connections_decodes_node_ids
           (steady always_appendable (answer 200 envelope_conns)) client0 None).
  reflexivity.
Defined.

(** C8, as the code has it.  [open_connection], [close_connection],
    [stop_node] and [healthz] hand back what [fetch] gives for their path
    and body, envelope or failure, unchanged.  [get_connections] propagates
    every failure of [fetch] unchanged; when it returns, [fetch] returned an
    envelope and the result is not that envelope but the value of its
    [connections] field, with the node ids decoded. *)
Theorem bindings_return_and_propagate w self :
  (forall host port,
      open_connection w self host port =
        fetch w self "open_connection"
          (PDict [("host", PStr host); ("port", PInt port)]) "") /\
  (forall node_id,
      close_connection w self node_id =
        fetch w self "close_connection"
          (PDict [("node_id", PStr (hex node_id))]) "") /\
  stop_node w self = fetch w self "stop_node" (PDict []) "" /\
  healthz w self = fetch w self "healthz" (PDict []) "" /\
  (forall node_type t e,
      fetch w self "get_connections" (connections_request node_type) "" =
        (t, Raise e) ->
      get_connections w self node_type = (t, Raise e)) /\
  (forall node_type t result,
      get_connections w self node_type = (t, Ok result) ->
      exists envelope connections items items',
        fetch w self "get_connections" (connections_request node_type) "" =
          (t, Ok envelope) /\
        subscript envelope "connections" = Ok connections /\
        iterate connections = Ok items /\
        decode_node_ids items = Ok items' /\
        result = match connections with
                 | PList _ => PList items'
                 | other => other
                 end /\
        result <> envelope).
Proof.
  repeat split.
  - intros node_type t e Hf. unfold get_connections. cbv zeta. now rewrite Hf.
  - intros node_type t result. unfold get_connections. cbv zeta.
    destruct (fetch w self "get_connections" (connections_request node_type) "")
      as [t' [envelope | e]]; [|discriminate].
    intros H. inversion H as [[Ht Hres]]; subst t'. clear H.
    destruct (subscript envelope "connections") as [connections|] eqn:Hc;
      [|discriminate]. cbn in Hres.
    destruct (iterate connections) as [items|] eqn:Hi; [|discriminate].
    cbn in Hres.
    destruct (decode_node_ids items) as [items'|] eqn:Hd; [|discriminate].
    cbn in Hres. inversion Hres as [Hr]; clear Hres.
    exists envelope, connections, items, items'. repeat split; auto.
    destruct envelope as [| | | | | | |d]; try discriminate Hc.
    destruct connections as [| | | |s|b|l|[|kv d']]; try discriminate.
    + cbn in Hc. intros Heq. inversion Heq; subst d. discriminate Hc.
    + cbn in Hi. inversion Hi; subst items. discriminate Hd.
Qed.

Lemma bindings_return_and_propagate_witness :
  get_connections (steady always_appendable (answer 500 envelope_ok)) client0
    None =
    ([(0%nat, EvPost "https://localhost:8555/get_connections?" (PDict []));
      (0%nat, EvResponse 500)],
     Raise (ClientResponseError 500)).
Proof.
  apply (bindings_return_and_propagate
           (steady always_appendable (answer 500 envelope_ok)) client0).
  reflexivity.
Defined.

(** C8 as claimed fails for [get_connections]: the peer's envelope comes out
    of [fetch] whole, and [get_connections] returns the list of records, which
    is neither the envelope nor the envelope with its records decoded. *)
Lemma get_connections_envelope_counterexample :
  let w := steady always_appendable (answer 200 envelope_conns) in
  let records :=
    PList [PDict [("node_id", PBytes [xab; x01]); ("peer_port", PInt 8444)]] in
  snd (fetch w client0 "get_connections" (connections_request None) "") =
    Ok envelope_conns /\
  snd (get_connections w client0 None) = Ok records /\
  snd (get_connections w client0 None) <> Ok envelope_conns /\
  snd (get_connections w client0 None) <>
    Ok (PDict [("connections", records); ("success", PBool true)]).
Proof.
  cbv zeta. repeat split; try reflexivity; discriminate.
Qed.

(** ** Shutdown *)

Lemma turn_task h L t :
  nth_error (tasks L) h = Some t ->
  nth_error (tasks (turn L)) h = Some (step_task t).
Proof. intros H. cbn. now apply map_nth_error. Qed.

Lemma turn_finishes h L :
  nth_error (tasks L) h = Some (Pending 0) -> session_closed (turn L) = true.
Proof.
  intros H. cbn. apply orb_true_iff. right. apply existsb_exists.
  exists (Pending 0). split; [eapply nth_error_In; eauto | reflexivity].
Qed.

(** Awaiting a task with [steps] suspensions to go takes [steps + 1] turns
    of the loop and finds the session closed. *)
Lemma await_pending steps : forall fuel h L,
  nth_error (tasks L) h = Some (Pending steps) ->
  (steps < fuel)%nat ->
  await fuel h L = Some (Nat.iter (S steps) turn L, S steps) /\
  session_closed (Nat.iter (S steps) turn L) = true.
Proof.
  induction steps as [|steps IH]; intros fuel h L Hh Hfuel;
    (destruct fuel as [|fuel]; [lia|]); cbn [await]; rewrite Hh;
    pose proof (turn_task _ _ _ Hh) as Hh'; cbn [step_task] in Hh'.
  - destruct fuel; cbn [await]; rewrite Hh'; cbn [Nat.iter nat_rect];
      (split; [reflexivity | eapply turn_finishes; eauto]).
  - destruct (IH fuel h (turn L) Hh' ltac:(lia)) as [-> Hclosed].
    rewrite <- Nat.iter_succ_r in Hclosed. rewrite <- Nat.iter_succ_r. auto.
Qed.

(** With fewer turns than that the caller is still suspended. *)
Lemma await_starved fuel : forall steps h L,
  nth_error (tasks L) h = Some (Pending steps) ->
  (fuel <= steps)%nat ->
  await fuel h L = None.
Proof.
  induction fuel as [|fuel IH]; intros steps h L Hh Hfuel; cbn [await];
    rewrite Hh; [reflexivity|].
  destruct steps as [|steps]; [lia|].
  pose proof (turn_task _ _ _ Hh) as Hh'; cbn [step_task] in Hh'.
  now rewrite (IH steps h (turn L) Hh' ltac:(lia)).
Qed.

Lemma close_task close_steps self L :
  closing_task (fst (close close_steps self L)) = Some (List.length (tasks L)) /\
  nth_error (tasks (snd (close close_steps self L))) (List.length (tasks L)) =
    Some (Pending close_steps).
Proof.
  split; [reflexivity|]. cbn.
  rewrite nth_error_app2 by lia. now rewrite Nat.sub_diag.
Qed.

(** C9.  On a client whose [close] was never called, [await_closed] returns
    at once and leaves everything as it is.  [close] returns without the
    session having been closed by it; [await_closed] after it stays
    suspended while the closing task is pending, and when it returns the
    task has run to its end and the session is closed. *)
Theorem await_closed_waits_for_close :
  (forall self L fuel,
      closing_task self = None -> await_closed fuel self L = Some (L, 0%nat)) /\
  (forall host p L fuel,
      await_closed fuel (create host p) L = Some (L, 0%nat)) /\
  (forall close_steps self L fuel,
      let self' := fst (close close_steps self L) in
      let L' := snd (close close_steps self L) in
      session_closed L' = session_closed L /\
      ((fuel <= close_steps)%nat -> await_closed fuel self' L' = None) /\
      ((close_steps < fuel)%nat ->
       await_closed fuel self' L' =
         Some (Nat.iter (S close_steps) turn L', S close_steps)) /\
      (forall L'' k,
          await_closed fuel self' L' = Some (L'', k) ->
          session_closed L'' = true /\ k = S close_steps /\
          nth_error (tasks L'') (List.length (tasks L)) = Some Done)).
Proof.
  split; [|split].
  - intros self L fuel H. unfold await_closed. now rewrite H.
  - reflexivity.
  - intros close_steps self L fuel self' L'.
    destruct (close_task close_steps self L) as [Hh Hnth].
    fold self' in Hh. fold L' in Hnth.
    assert (Hawait : await_closed fuel self' L' =
                       await fuel (List.length (tasks L)) L')
      by (unfold await_closed; now rewrite Hh).
    split; [reflexivity|]. split; [|split].
    + intros Hfuel. rewrite Hawait. eapply await_starved; eauto.
    + intros Hfuel. rewrite Hawait.
      now destruct (await_pending _ _ _ _ Hnth Hfuel).
    + intros L'' k Hret. rewrite Hawait in Hret.
      destruct (Nat.le_gt_cases fuel close_steps) as [Hle | Hgt].
      * rewrite (await_starved _ _ _ _ Hnth Hle) in Hret. discriminate.
      * destruct (await_pending _ _ _ _ Hnth Hgt) as [Hrun Hclosed].
        rewrite Hrun in Hret. inversion Hret; subst. repeat split; auto.
        clear - Hnth. revert Hnth. generalize L' as M.
        induction close_steps as [|n IH]; intros M Hnth.
        -- exact (turn_task _ _ _ Hnth).
        -- rewrite Nat.iter_succ_r. apply IH. exact (turn_task _ _ _ Hnth).
Qed.

(** A session whose close takes three suspensions: [await_closed] is back
    after four turns, with the session closed. *)
Lemma await_closed_waits_for_close_witness :
  let L := {| session_closed := false; tasks := [] |} in
  await_closed 3 (fst (close 3 client0 L)) (snd (close 3 client0 L)) = None /\
  await_closed 10 (fst (close 3 client0 L)) (snd (close 3 client0 L)) =
    Some ({| session_closed := true; tasks := [Done] |}, 4%nat) /\
  await_closed 10 client0 L = Some (L, 0%nat).
Proof.
  cbv zeta.
  destruct await_closed_waits_for_close as (Hnone & _ & Hclose).
  destruct (Hclose 3%nat client0 {| session_closed := false; tasks := [] |}
              3%nat) as (_ & Hstarved & _).
  destruct (Hclose 3%nat client0 {| session_closed := false; tasks := [] |}
              10%nat) as (_ & _ & Hdone & _).
  split; [apply Hstarved; lia|].
  split; [apply Hdone; lia|].
  apply Hnone. reflexivity.
Defined.

(** With an id that names an appendable file, the first line is written on
    attempt 0 and the retry line on each 404 that is retried. *)
Lemma fetch_id_is_a_path_witness :
  let run := fetch late_success client0 "healthz" (PDict []) "rpc.log" in
  let target := "https://localhost:8555/healthz?rpc.log" in
  In (0%nat, EvAppend "rpc.log" (first_line late_success target)) (fst run) /\
  In (3%nat, EvAppend "rpc.log" (retry_line late_success target)) (fst run) /\
  In (3%nat, EvSleep 1) (fst run).
Proof.
  cbv zeta.
  destruct (fetch_id_is_a_path late_success client0 "healthz" (PDict [])
              "rpc.log" _ _ eq_refl) as [Hfirst Hretry].
  split.
  - apply (Hfirst 404); [in_trace | discriminate].
  - apply (Hretry 3%nat); [in_trace | discriminate].
Defined.

(** ** More on one attempt *)

Section AttemptShape.
Variables (w : world) (target id : string) (request_json : pyval).

(** An attempt ends in [continue] only on a 404 before the last attempt
    whose diagnostic line could be written: the id is then a non-empty,
    appendable path, and the attempt did exactly this. *)
Lemma attempt_continue_inv retry n t n' :
  attempt w target id request_json retry n = (t, n', inr Continue) ->
  retry <> 4%nat /\ id <> "" /\ can_append w id = true /\
  (exists resp, transport w n = Ok resp /\ status resp = 404) /\
  t = EvPost target request_json :: EvResponse 404 ::
      (if Nat.eqb retry 0 then [EvAppend id (first_line w target)] else []) ++
      [EvAppend id (retry_line w target); EvSleep 1].
Proof.
  intros H.
  attempt_cases w id retry n; inv_pairs; try discriminate; bool_facts;
    repeat split; try congruence; eauto;
    match goal with
    | H : status _ = 404 |- _ => rewrite H; reflexivity
    end.
Qed.

(** An attempt returns only on attempt 0, with the body it decoded, whose
    [success] is truthy. *)
Lemma attempt_return_inv retry n t n' v :
  attempt w target id request_json retry n = (t, n', inr (Return v)) ->
  retry = 0%nat /\ In (EvJson v) t /\
  exists success, subscript v "success" = Ok success /\ truthy success = true.
Proof.
  intros H.
  attempt_cases w id retry n; inv_pairs; try discriminate; bool_facts;
    repeat split; try congruence; eauto; in_trace.
Qed.

(** Only an attempt that ends in [continue] sleeps. *)
Lemma attempt_no_sleep retry n t n' c :
  attempt w target id request_json retry n = (t, n', inr c) ->
  c <> Continue ->
  filter is_sleep t = [].
Proof.
  intros H Hc.
  attempt_cases w id retry n; inv_pairs; try reflexivity; congruence.
Qed.

(** What an attempt may do: POST the request to the target, append one of
    the two diagnostic lines to the file named by the id, sleep a second. *)
Lemma attempt_events retry n t n' r ev :
  attempt w target id request_json retry n = (t, n', r) ->
  In ev t ->
  match ev with
  | EvPost u b => u = target /\ b = request_json
  | EvAppend p l =>
      p = id /\ id <> "" /\ can_append w id = true /\
      (l = first_line w target \/ l = retry_line w target)
  | EvSleep secs => secs = 1
  | EvResponse st => exists resp, transport w n = Ok resp /\ status resp = st
  | EvJson v => exists resp, transport w n = Ok resp /\ json resp = Ok v
  end.
Proof.
  intros H HIn.
  attempt_cases w id retry n; inv_pairs; cbn in HIn;
    repeat match goal with
      | H : _ \/ _ |- _ => destruct H
      | H : False |- _ => destruct H
      end;
    subst; bool_facts; eauto; repeat split; auto; congruence.
Qed.

(** A POST that fails ends the attempt in the exception of the POST. *)
Lemma attempt_post_raises retry n t n' r e :
  attempt w target id request_json retry n = (t, n', r) ->
  transport w n = Raise e ->
  r = inr (Throw e) /\ t = [EvPost target request_json].
Proof.
  intros H Htr. run_stm. rewrite Htr in H. cbn in H. inv_pairs. auto.
Qed.

(** A 404 on the last attempt is an HTTP-status error like any other. *)
Lemma attempt_last_404 n t n' r :
  attempt w target id request_json 4 n = (t, n', r) ->
  In (EvResponse 404) t ->
  r = inr (Throw (ClientResponseError 404)).
Proof.
  intros H HIn.
  attempt_cases w id 4%nat n; inv_pairs; in_cases; bool_facts;
    try reflexivity; try discriminate; lia.
Qed.

(** A body that cannot be decoded, on a status below 400, ends the attempt
    in the decoding error, provided the first diagnostic write went
    through. *)
Lemma attempt_undecodable retry n t n' r resp0 ex :
  attempt w target id request_json retry n = (t, n', r) ->
  transport w n = Ok resp0 ->
  status resp0 < 400 ->
  json resp0 = Raise ex ->
  (retry <> 0%nat \/ id = "" \/ can_append w id = true) ->
  r = inr (Throw ex).
Proof.
  intros H Htr Hst Hjson Hlog.
  attempt_cases w id retry n; inv_pairs; bool_facts;
    inversion Htr; subst; try congruence; try lia;
    try (exfalso; intuition congruence).
Qed.

End AttemptShape.

(** ** Whole runs *)

Lemma sleeps_app (t1 t2 : trace) : sleeps (t1 ++ t2) = (sleeps t1 + sleeps t2)%nat.
Proof. unfold sleeps. now rewrite filter_app, length_app. Qed.

Lemma sleeps_tag (k : nat) (t : list event) :
  sleeps (map (pair k) t) = List.length (filter is_sleep t).
Proof.
  unfold sleeps. induction t as [|e t IH]; cbn; [reflexivity|].
  destruct (is_sleep e); cbn; now rewrite IH.
Qed.

Lemma In_posts (t : trace) k u b : In (k, EvPost u b) t -> In k (posts t).
Proof.
  intros H. unfold posts. apply in_map_iff. exists (k, EvPost u b).
  split; [reflexivity|]. apply filter_In. auto.
Qed.

Lemma In_appends (t : trace) p l :
  In (p, l) (appends t) <-> exists k, In (k, EvAppend p l) t.
Proof.
  unfold appends. rewrite in_flat_map. split.
  - intros [[k e] [HIn He]]. cbn in He. destruct e; cbn in He; try tauto.
    destruct He as [He|[]]. inversion He; subst. eauto.
  - intros [k HIn]. exists (k, EvAppend p l). split; [exact HIn | now left].
Qed.

Section Run.
Variables (w : world) (target id : string) (request_json : pyval).

Local Abbreviation attempt_at := (attempt w target id request_json).
Local Abbreviation loop_over := (fetch_loop w target id request_json).

(** A run of the loop over attempts [r0, r0+1, ...]: some number [j] of
    attempts end in [continue], each after one sleep, and then either the
    attempts are used up or attempt [r0 + j] ends the call. *)
Lemma fetch_loop_run m : forall r0 n t n' r,
  loop_over (seq r0 m) n = (t, n', r) ->
  exists j, (j <= m)%nat /\
    (forall k, (r0 <= k < r0 + j)%nat ->
       exists tk,
         attempt_at k (n + (k - r0))%nat = (tk, S (n + (k - r0)), inr Continue) /\
         forall e, In e tk -> In (k, e) t) /\
    sleeps t = j /\
    ((j = m /\ r = Ok PNone) \/
     ((j < m)%nat /\
      exists t0 c,
        attempt_at (r0 + j)%nat (n + j)%nat = (t0, S (n + j), inr c) /\
        c <> Continue /\ r = result_of c /\ posts t = seq r0 (S j) /\
        forall e, In e t0 -> In ((r0 + j)%nat, e) t)).
Proof.
  induction m as [|m IH]; intros r0 n t n' r Hrun; cbn in Hrun.
  - inversion Hrun; subst. exists 0%nat. repeat split; auto.
    intros k Hk. lia.
  - destruct (attempt_at r0 n) as [[t0 n0] [u | c]] eqn:Hatt.
    + destruct (attempt_abrupt w target id request_json r0 n) as [c Hc].
      rewrite Hatt in Hc. discriminate.
    + pose proof (attempt_one_post _ _ _ _ _ _ _ _ _ Hatt)
        as [-> (tl & Ht0 & Htl)].
      pose proof (posts_attempt r0 request_json target tl Htl) as Hp.
      rewrite <- Ht0 in Hp. clear Ht0 Htl.
      assert (Hfinal : c <> Continue ->
                t = map (pair r0) t0 -> r = result_of c ->
                exists j, (j <= S m)%nat /\
                  (forall k, (r0 <= k < r0 + j)%nat ->
                     exists tk,
                       attempt_at k (n + (k - r0))%nat =
                         (tk, S (n + (k - r0)), inr Continue) /\
                       forall e, In e tk -> In (k, e) t) /\
                  sleeps t = j /\
                  ((j = S m /\ r = Ok PNone) \/
                   ((j < S m)%nat /\
                    exists t1 c1,
                      attempt_at (r0 + j)%nat (n + j)%nat =
                        (t1, S (n + j), inr c1) /\
                      c1 <> Continue /\ r = result_of c1 /\
                      posts t = seq r0 (S j) /\
                      forall e, In e t1 -> In ((r0 + j)%nat, e) t))).
      { intros Hc -> ->. exists 0%nat. split; [lia|]. split; [intros k Hk; lia|].
        split.
        - rewrite sleeps_tag.
          now rewrite (attempt_no_sleep _ _ _ _ _ _ _ _ _ Hatt Hc).
        - right. split; [lia|]. exists t0, c.
          rewrite !Nat.add_0_r. repeat split; auto.
          intros e He. now apply in_map. }
      destruct c as [| v | x].
      * destruct (loop_over (seq (S r0) m) (S n)) as [[t' n''] r'] eqn:Hrest.
        inversion Hrun; subst. clear Hfinal.
        destruct (IH _ _ _ _ _ Hrest) as (j & Hj & Hcont & Hsl & Hend).
        exists (S j). split; [lia|]. split; [|split].
        -- intros k Hk. destruct (Nat.eq_dec k r0) as [-> | Hne].
           ++ exists t0. rewrite Nat.sub_diag, Nat.add_0_r. split; [exact Hatt|].
              intros e He. apply in_or_app. left. now apply in_map.
           ++ destruct (Hcont k ltac:(lia)) as (tk & Hk1 & Hk2).
              replace (S n + (k - S r0))%nat with (n + (k - r0))%nat in Hk1 by lia.
              exists tk. split; [exact Hk1|].
              intros e He. apply in_or_app. right. auto.
        -- rewrite sleeps_app, sleeps_tag, Hsl.
           destruct (attempt_continue_inv _ _ _ _ _ _ _ _ Hatt)
             as (_ & _ & _ & _ & ->).
           cbn. destruct (Nat.eqb r0 0); reflexivity.
        -- destruct Hend as [[-> ->] | (Hlt & t1 & c1 & Ha & Hc1 & Hr & Hp1 & Hin)].
           ++ left. auto.
           ++ right. split; [lia|]. exists t1, c1.
              replace (r0 + S j)%nat with (S r0 + j)%nat by lia.
              replace (n + S j)%nat with (S n + j)%nat by lia.
              repeat split; auto.
              ** rewrite posts_app, Hp, Hp1. reflexivity.
              ** intros e He. apply in_or_app. right. auto.
      * inversion Hrun; subst. apply Hfinal; [discriminate | reflexivity ..].
      * inversion Hrun; subst. apply Hfinal; [discriminate | reflexivity ..].
Qed.

End Run.

Section FetchRun.
Variables (w : world) (self : RpcClient) (path : string)
  (request_json : pyval) (id : string).

Local Abbreviation target_url := (url self ++ path ++ "?" ++ id)%string.

(** A call is [j] attempts that end in [continue] and one, attempt [j],
    that ends the call; the loop never runs out of attempts. *)
Lemma fetch_run t r :
  fetch w self path request_json id = (t, r) ->
  exists j t0 c,
    (j < 5)%nat /\
    attempt w target_url id request_json j j = (t0, S j, inr c) /\
    c <> Continue /\ r = result_of c /\
    posts t = seq 0 (S j) /\ sleeps t = j /\
    (forall e, In e t0 -> In (j, e) t) /\
    (forall k, (k < j)%nat ->
       exists tk,
         attempt w target_url id request_json k k = (tk, S k, inr Continue) /\
         forall e, In e tk -> In (k, e) t).
Proof.
  unfold fetch, retries.
  destruct (fetch_loop w target_url id request_json (seq 0 5) 0)
    as [[t' n'] r'] eqn:Hrun.
  intros Heq. inversion Heq; subst.
  destruct (fetch_loop_run _ _ _ _ _ _ _ _ _ _ Hrun)
    as (j & Hj & Hcont & Hsl & Hend).
  assert (Hcont' : forall k, (k < j)%nat ->
            exists tk,
              attempt w target_url id request_json k k = (tk, S k, inr Continue) /\
              forall e, In e tk -> In (k, e) t).
  { intros k Hk. destruct (Hcont k ltac:(lia)) as (tk & Ha & Hi).
    rewrite Nat.sub_0_r in Ha. cbn [Nat.add] in Ha. eauto. }
  destruct Hend as [[-> _] | (Hlt & t0 & c & Ha & Hc & Hr & Hp & Hin)].
  - destruct (Hcont' 4%nat ltac:(lia)) as (tk & Ha & _).
    destruct (attempt_continue_inv _ _ _ _ _ _ _ _ Ha) as (Hne & _).
    congruence.
  - cbn [Nat.add] in *. exists j, t0, c. repeat split; auto.
Qed.

(** X1.  A call that returns made a single attempt: one POST, no sleep, and
    the value returned is the body decoded on attempt 0, whose [success]
    is truthy. *)
Theorem fetch_returns_only_first_attempt t v :
  fetch w self path request_json id = (t, Ok v) ->
  posts t = [0%nat] /\ sleeps t = 0%nat /\ In (0%nat, EvJson v) t /\
  exists success, subscript v "success" = Ok success /\ truthy success = true.
Proof.
  intros Hrun.
  destruct (fetch_run _ _ Hrun)
    as (j & t0 & c & _ & Ha & Hc & Hr & Hp & Hsl & Hin & _).
  destruct c as [| v' | x]; [congruence | | discriminate Hr].
  cbn in Hr. inversion Hr; subst v'.
  destruct (attempt_return_inv _ _ _ _ _ _ _ _ _ Ha) as (-> & Hjson & Hsucc).
  auto.
Qed.

(** X2.  The call sleeps once, for one second, between one POST and the
    next: four times at most. *)
Theorem fetch_sleeps_between_posts t r :
  fetch w self path request_json id = (t, r) ->
  S (sleeps t) = List.length (posts t) /\ (sleeps t <= 4)%nat /\
  forall k secs, In (k, EvSleep secs) t -> secs = 1.
Proof.
  intros Hrun.
  destruct (fetch_run _ _ Hrun)
    as (j & t0 & c & Hj & _ & _ & _ & Hp & Hsl & _).
  rewrite Hp, Hsl, length_seq. repeat split; [lia|].
  intros k secs HIn.
  destruct (fetch_inv _ _ _ _ _ _ _ _ _ Hrun HIn) as (_ & tk & ck & Ha & Hi & _).
  exact (attempt_events _ _ _ _ _ _ _ _ _ _ Ha Hi).
Qed.

(** X3.  Every POST of a call goes to the same URL, the base URL followed
    by the path, a question mark and the id, and carries the same body. *)
Theorem fetch_posts_same_request t r k u b :
  fetch w self path request_json id = (t, r) ->
  In (k, EvPost u b) t ->
  u = (url self ++ path ++ "?" ++ id)%string /\ b = request_json.
Proof.
  intros Hrun HIn.
  destruct (fetch_inv _ _ _ _ _ _ _ _ _ Hrun HIn) as (_ & tk & ck & Ha & Hi & _).
  exact (attempt_events _ _ _ _ _ _ _ _ _ _ Ha Hi).
Qed.

(** X4.  The only file a call writes to is the one named by the id, which
    is then non-empty and appendable, and what it appends is one of the
    two diagnostic lines. *)
Theorem fetch_appends_only_to_id t r p l :
  fetch w self path request_json id = (t, r) ->
  In (p, l) (appends t) ->
  p = id /\ id <> "" /\ can_append w id = true /\
  (l = first_line w target_url \/ l = retry_line w target_url).
Proof.
  intros Hrun HIn. apply In_appends in HIn as [k HIn].
  destruct (fetch_inv _ _ _ _ _ _ _ _ _ Hrun HIn) as (_ & tk & ck & Ha & Hi & _).
  exact (attempt_events _ _ _ _ _ _ _ _ _ _ Ha Hi).
Qed.

(** X5.  A further attempt is made only after a 404: if attempt [k + 1]
    did anything, attempt [k] received a 404, appended the retry line to
    the file named by the id (a non-empty, appendable path) and slept a
    second. *)
Theorem fetch_retries_only_after_404 t r k e :
  fetch w self path request_json id = (t, r) ->
  In (S k, e) t ->
  In (k, EvResponse 404) t /\
  In (k, EvAppend id (retry_line w target_url)) t /\
  In (k, EvSleep 1) t /\
  id <> "" /\ can_append w id = true.
Proof.
  intros Hrun HIn.
  destruct (fetch_inv _ _ _ _ _ _ _ _ _ Hrun HIn)
    as (_ & tk & ck & Ha & _ & Hincl & _).
  destruct (attempt_one_post _ _ _ _ _ _ _ _ _ Ha) as (_ & tl & -> & _).
  pose proof (In_posts _ _ _ _ (Hincl _ (or_introl eq_refl))) as Hpost.
  destruct (fetch_run _ _ Hrun)
    as (j & t0 & c & _ & _ & _ & _ & Hp & _ & _ & Hcont).
  rewrite Hp in Hpost. apply in_seq in Hpost.
  destruct (Hcont k ltac:(lia)) as (t1 & Ha1 & Hin1).
  destruct (attempt_continue_inv _ _ _ _ _ _ _ _ Ha1)
    as (_ & Hid & Hca & _ & ->).
  repeat split; auto; apply Hin1; cbn; destruct (Nat.eqb k 0); in_trace.
Qed.

(** X6.  With the empty id a call never gets past its first attempt: one
    POST, no sleep, nothing written to any file. *)
Theorem fetch_empty_id_single_post t r :
  id = "" ->
  fetch w self path request_json id = (t, r) ->
  posts t = [0%nat] /\ sleeps t = 0%nat /\ appends t = [].
Proof.
  intros Hid Hrun.
  destruct (fetch_run _ _ Hrun)
    as (j & t0 & c & _ & _ & _ & _ & Hp & Hsl & _ & Hcont).
  assert (j = 0%nat) as ->.
  { destruct j as [|j]; [reflexivity|].
    destruct (Hcont 0%nat ltac:(lia)) as (tk & Ha & _).
    destruct (attempt_continue_inv _ _ _ _ _ _ _ _ Ha) as (_ & Hne & _).
    congruence. }
  repeat split; auto.
  destruct (appends t) as [|[p l] rest] eqn:Happ; [reflexivity|].
  assert (HIn : In (p, l) (appends t)) by (rewrite Happ; now left).
  apply In_appends in HIn as [k HIn].
  destruct (fetch_inv _ _ _ _ _ _ _ _ _ Hrun HIn) as (_ & tk & ck & Ha & Hi & _).
  pose proof (attempt_events _ _ _ _ _ _ _ _ _ _ Ha Hi) as (_ & Hne & _).
  congruence.
Qed.

(** X7.  A POST that raises ends the call with that exception: it is not
    retried. *)
Theorem fetch_post_exception_propagates t r k u b e :
  fetch w self path request_json id = (t, r) ->
  In (k, EvPost u b) t ->
  transport w k = Raise e ->
  r = Raise e /\ posts t = seq 0 (S k).
Proof.
  intros Hrun HIn Htr.
  destruct (fetch_inv _ _ _ _ _ _ _ _ _ Hrun HIn)
    as (_ & tk & ck & Ha & _ & _ & Hc).
  destruct (attempt_post_raises _ _ _ _ _ _ _ _ _ _ Ha Htr) as [Hr _].
  inversion Hr; subst ck.
  destruct Hc as [Hc | (-> & Hp & _)]; [discriminate | auto].
Qed.

(** X8.  A 404 on the fifth attempt is not retried: the call fails with the
    HTTP-status error for 404, having issued five POSTs and slept four
    times. *)
Theorem fetch_last_404_raises t r :
  fetch w self path request_json id = (t, r) ->
  In (4%nat, EvResponse 404) t ->
  r = Raise (ClientResponseError 404) /\
  posts t = seq 0 5 /\ sleeps t = 4%nat.
Proof.
  intros Hrun HIn.
  destruct (fetch_inv _ _ _ _ _ _ _ _ _ Hrun HIn)
    as (_ & tk & ck & Ha & Hi & _ & Hc).
  pose proof (attempt_last_404 _ _ _ _ _ _ _ _ Ha Hi) as Hr.
  inversion Hr; subst ck.
  destruct Hc as [Hc | (-> & Hp & _)]; [discriminate|].
  repeat split; auto.
  destruct (fetch_run _ _ Hrun) as (j & _ & _ & _ & _ & _ & _ & Hp' & Hsl & _).
  rewrite Hp in Hp'. apply (f_equal (@List.length nat)) in Hp'.
  rewrite !length_seq in Hp'. lia.
Qed.

(** X9.  A body that cannot be decoded, on a status below 400, ends the
    call with the decoding error (on the first attempt: provided the
    diagnostic line, if any, could be written). *)
Theorem fetch_undecodable_body_raises t r k st resp e :
  fetch w self path request_json id = (t, r) ->
  In (k, EvResponse st) t ->
  transport w k = Ok resp ->
  status resp < 400 ->
  json resp = Raise e ->
  (k <> 0%nat \/ id = "" \/ can_append w id = true) ->
  r = Raise e /\ posts t = seq 0 (S k).
Proof.
  intros Hrun HIn Htr Hst Hjson Hlog.
  destruct (fetch_inv _ _ _ _ _ _ _ _ _ Hrun HIn)
    as (_ & tk & ck & Ha & _ & _ & Hc).
  pose proof (attempt_undecodable _ _ _ _ _ _ _ _ _ _ _ Ha Htr Hst Hjson Hlog)
    as Hr.
  inversion Hr; subst ck.
  destruct Hc as [Hc | (-> & Hp & _)]; [discriminate | auto].
Qed.

(** X10.  A decoded body that is not an object ends the call with the
    [TypeError] of subscripting it. *)
Theorem fetch_non_object_body_raises t r k v :
  fetch w self path request_json id = (t, r) ->
  In (k, EvJson v) t ->
  (forall d, v <> PDict d) ->
  r = Raise TypeError.
Proof.
  intros Hrun HIn Hv.
  destruct (fetch_decoded _ _ _ _ _ _ _ _ _ Hrun HIn) as (-> & _).
  unfold verdict. destruct v; try reflexivity. now destruct (Hv d).
Qed.

(** X11.  Any falsy [success] counts as failure, not only [False]: null,
    0, the empty string, list or object all end the call with [ValueError]
    carrying the envelope. *)
Theorem fetch_falsy_success_raises t r k d success :
  fetch w self path request_json id = (t, r) ->
  In (k, EvJson (PDict d)) t ->
  dict_get d "success" = Some success ->
  truthy success = false ->
  r = Raise (ValueError (PDict d)) /\ posts t = seq 0 (S k).
Proof.
  intros Hrun HIn Hget Hfalse.
  destruct (fetch_decoded _ _ _ _ _ _ _ _ _ Hrun HIn) as (-> & Hp & _).
  unfold verdict, subscript. rewrite Hget, Hfalse. auto.
Qed.

(** X12.  On the first attempt any envelope with a truthy [success],
    boolean or not, is returned as it was decoded. *)
Theorem fetch_truthy_success_returns t r d success :
  fetch w self path request_json id = (t, r) ->
  In (0%nat, EvJson (PDict d)) t ->
  dict_get d "success" = Some success ->
  truthy success = true ->
  r = Ok (PDict d) /\ posts t = [0%nat].
Proof.
  intros Hrun HIn Hget Htrue.
  destruct (fetch_decoded _ _ _ _ _ _ _ _ _ Hrun HIn) as (-> & Hp & _).
  unfold verdict, subscript. rewrite Hget, Htrue. auto.
Qed.

End FetchRun.

(** ** Retrying *)

Section Retrying.
Variables (w : world) (self : RpcClient) (path : string)
  (request_json : pyval) (id : string).

Local Abbreviation target_of := (url self ++ path ++ "?" ++ id)%string.

(** With an id that names an appendable file, a 404 before the last attempt
    ends the attempt in [continue]. *)
Lemma attempt_404_continues retry n resp0 :
  transport w n = Ok resp0 ->
  status resp0 = 404 ->
  retry <> 4%nat ->
  id <> "" -> can_append w id = true ->
  exists t, attempt w target_of id request_json retry n = (t, S n, inr Continue).
Proof.
  intros Htr Hst Hretry Hid Hca.
  attempt_cases w id retry n; inversion Htr; subst; bool_facts;
    try congruence; try lia; eauto.
Qed.

(** X13.  With an id that names an appendable file the retry works: a 404
    before the last attempt is followed by a second of sleep and the next
    POST of the same request. *)
Theorem fetch_404_is_retried t r k :
  id <> "" -> can_append w id = true ->
  fetch w self path request_json id = (t, r) ->
  In (k, EvResponse 404) t ->
  k <> 4%nat ->
  In (k, EvSleep 1) t /\ In (S k, EvPost target_of request_json) t.
Proof.
  intros Hid Hca Hrun HIn Hk.
  destruct (fetch_inv _ _ _ _ _ _ _ _ _ Hrun HIn)
    as (_ & tk & ck & Ha & Hi & Hincl & _).
  pose proof (attempt_retry_line _ _ _ _ _ _ _ _ _ Ha Hi Hk) as Hlog.
  assert (Hcond : negb (String.eqb id "") && can_append w id = true).
  { rewrite Hca. apply String.eqb_neq in Hid. now rewrite Hid. }
  rewrite Hcond in Hlog. destruct Hlog as (_ & Hsleep & Hck).
  inversion Hck; subst ck. split; [auto|].
  destruct (attempt_one_post _ _ _ _ _ _ _ _ _ Ha) as (_ & tl & Htk & _).
  assert (Hpost : In k (posts t)).
  { eapply In_posts. apply Hincl. rewrite Htk. now left. }
  destruct (fetch_run _ _ _ _ _ _ _ Hrun)
    as (j & t0 & c & _ & Haj & Hc & _ & Hp & _ & Hin & Hcont).
  rewrite Hp in Hpost. apply in_seq in Hpost.
  assert (k <> j) by (intros ->; rewrite Ha in Haj; congruence).
  destruct (Nat.eq_dec (S k) j) as [<- | Hne].
  - destruct (attempt_one_post _ _ _ _ _ _ _ _ _ Haj) as (_ & tl' & -> & _).
    apply Hin. now left.
  - destruct (Hcont (S k) ltac:(lia)) as (t1 & Ha1 & Hin1).
    destruct (attempt_one_post _ _ _ _ _ _ _ _ _ Ha1) as (_ & tl' & -> & _).
    apply Hin1. now left.
Qed.

(** X14.  With an id that names an appendable file and a peer that answers
    404 five times, the call makes all five attempts, sleeps four times
    and fails with the HTTP-status error for 404. *)
Theorem fetch_five_404s_raises t r :
  id <> "" -> can_append w id = true ->
  (forall k, (k < 5)%nat ->
     exists resp, transport w k = Ok resp /\ status resp = 404) ->
  fetch w self path request_json id = (t, r) ->
  r = Raise (ClientResponseError 404) /\ posts t = seq 0 5 /\ sleeps t = 4%nat.
Proof.
  intros Hid Hca Hpeer Hrun.
  destruct (fetch_run _ _ _ _ _ _ _ Hrun)
    as (j & t0 & c & Hj & Haj & Hc & Hr & Hp & Hsl & _).
  destruct (Hpeer j Hj) as (resp & Htr & Hst).
  destruct (Nat.eq_dec j 4) as [-> | Hne].
  - assert (Hresp : In (EvResponse 404) t0).
    { clear - Haj Htr Hst. run_stm. rewrite Htr in Haj. cbn in Haj.
      repeat match type of Haj with
        | context [if ?b then _ else _] => destruct b; cbn in Haj
        | context [match ?x with _ => _ end] => destruct x; cbn in Haj
        end; inv_pairs; rewrite ?Hst; in_trace. }
    pose proof (attempt_last_404 _ _ _ _ _ _ _ _ Haj Hresp) as Hc4.
    inversion Hc4; subst c. auto.
  - destruct (attempt_404_continues j j resp Htr Hst Hne Hid Hca) as [t1 Ha1].
    rewrite Ha1 in Haj. congruence.
Qed.

End Retrying.

(** ** More on the bindings *)

Lemma dict_set_keys d key x v :
  dict_get d key = Some v -> keys (dict_set d key x) = keys d.
Proof.
  unfold keys. induction d as [|[k y] d IH]; cbn; [discriminate|].
  destruct (String.eqb k key) eqn:E; cbn; [reflexivity|].
  intros H. now rewrite IH.
Qed.

Lemma dict_get_set_other d key x other :
  other <> key -> dict_get (dict_set d key x) other = dict_get d other.
Proof.
  intros Hne. induction d as [|[k y] d IH]; cbn.
  - apply String.eqb_neq in Hne. rewrite String.eqb_sym. now rewrite Hne.
  - destruct (String.eqb k key) eqn:E; cbn.
    + apply String.eqb_eq in E. subst k.
      apply String.eqb_neq in Hne. rewrite String.eqb_sym. now rewrite Hne.
    + now rewrite IH.
Qed.

(** The I/O of [get_connections] is that of its one call of [fetch],
    whatever becomes of the result. *)
Lemma get_connections_trace w self node_type :
  fst (get_connections w self node_type) =
  fst (fetch w self "get_connections" (connections_request node_type) "").
Proof.
  unfold get_connections. cbv zeta.
  now destruct (fetch w self "get_connections" (connections_request node_type) "")
    as [t [v | e]].
Qed.

(** A call with the default id: one POST, of the request it was given. *)
Lemma fetch_default_id w self path request_json t r :
  fetch w self path request_json "" = (t, r) ->
  posts t = [0%nat] /\ sleeps t = 0%nat /\ appends t = [] /\
  forall k u b, In (k, EvPost u b) t ->
                u = (url self ++ path ++ "?")%string /\ b = request_json.
Proof.
  intros Hrun.
  assert (Hev : forall k e, In (k, e) t ->
            match e with
            | EvPost u b => u = (url self ++ path ++ "?")%string /\ b = request_json
            | EvAppend _ _ => False
            | _ => True
            end).
  { intros k e HIn.
    destruct (fetch_inv _ _ _ _ _ _ _ _ _ Hrun HIn) as (_ & tk & ck & Ha & Hi & _).
    pose proof (attempt_events _ _ _ _ _ _ _ _ _ _ Ha Hi) as He.
    destruct e; auto. destruct He as (_ & Hne & _). congruence. }
  destruct (fetch_run _ _ _ _ _ _ _ Hrun)
    as (j & t0 & c & _ & _ & _ & _ & Hp & Hsl & _ & Hcont).
  assert (j = 0%nat) as ->.
  { destruct j as [|j]; [reflexivity|].
    destruct (Hcont 0%nat ltac:(lia)) as (tk & Ha & _).
    destruct (attempt_continue_inv _ _ _ _ _ _ _ _ Ha) as (_ & Hne & _).
    congruence. }
  repeat split; auto; try (now apply (Hev k (EvPost u b))).
  destruct (appends t) as [|[p l] rest] eqn:Happ; [reflexivity|].
  assert (HIn : In (p, l) (appends t)) by (rewrite Happ; now left).
  apply In_appends in HIn as [k HIn]. destruct (Hev _ _ HIn).
Qed.

(** X15.  Each endpoint binding issues exactly one POST, to the base URL
    followed by its name and a question mark, with its own body; none of
    them ever sleeps, retries or writes to a file. *)
Theorem bindings_post_once w self :
  let once (run : trace * result pyval) (name : string) (body : pyval) :=
    posts (fst run) = [0%nat] /\ sleeps (fst run) = 0%nat /\
    appends (fst run) = [] /\
    forall k u b, In (k, EvPost u b) (fst run) ->
                  u = (url self ++ name ++ "?")%string /\ b = body in
  (forall node_type,
      once (get_connections w self node_type) "get_connections"
        (connections_request node_type)) /\
  (forall host port,
      once (open_connection w self host port) "open_connection"
        (PDict [("host", PStr host); ("port", PInt port)])) /\
  (forall node_id,
      once (close_connection w self node_id) "close_connection"
        (PDict [("node_id", PStr (hex node_id))])) /\
  once (stop_node w self) "stop_node" (PDict []) /\
  once (healthz w self) "healthz" (PDict []).
Proof.
  cbv zeta.
  assert (Hfetch : forall name body,
            posts (fst (fetch w self name body "")) = [0%nat] /\
            sleeps (fst (fetch w self name body "")) = 0%nat /\
            appends (fst (fetch w self name body "")) = [] /\
            forall k u b, In (k, EvPost u b) (fst (fetch w self name body "")) ->
                          u = (url self ++ name ++ "?")%string /\ b = body).
  { intros name body.
    apply (fetch_default_id w self name body _ (snd (fetch w self name body ""))).
    now destruct (fetch w self name body ""). }
  split; [|split; [|split; [|split]]]; intros;
    unfold open_connection, close_connection, stop_node, healthz;
    rewrite ?get_connections_trace; apply Hfetch.
Qed.

(** X16.  [get_connections] changes nothing but [node_id]: the result has
    as many records as the peer sent, in the same order, each with the same
    keys in the same order and the same value under every other key. *)
Theorem get_connections_keeps_other_fields w self node_type t result :
  get_connections w self node_type = (t, Ok result) ->
  exists envelope connections items items',
    fetch w self "get_connections" (connections_request node_type) "" =
      (t, Ok envelope) /\
    subscript envelope "connections" = Ok connections /\
    iterate connections = Ok items /\
    iterate result = Ok items' /\
    List.length items' = List.length items /\
    Forall2 (fun wire record =>
               exists d d',
                 wire = PDict d /\ record = PDict d' /\ keys d' = keys d /\
                 forall key, key <> "node_id" ->
                             dict_get d' key = dict_get d key)
      items items'.
Proof.
  unfold get_connections. cbv zeta.
  destruct (fetch w self "get_connections" (connections_request node_type) "")
    as [t' [envelope | e]]; [|discriminate].
  intros H. inversion H as [[Ht Hres]]; subst t'. clear H.
  destruct (subscript envelope "connections") as [connections|] eqn:Hc;
    [|discriminate]. cbn in Hres.
  destruct (iterate connections) as [items|] eqn:Hi; [|discriminate].
  cbn in Hres.
  destruct (decode_node_ids items) as [items'|] eqn:Hd; [|discriminate].
  cbn in Hres. inversion Hres as [Hr]; clear Hres.
  pose proof (decode_node_ids_spec _ _ Hd) as Hall.
  exists envelope, connections, items, items'. repeat split; auto.
  - subst result. clear Hall Hc.
    destruct connections as [| | | |s|b|l|d]; try discriminate Hi;
      cbn in Hi; inversion Hi; subst items; clear Hi.
    + destruct s; cbn in Hd; [inversion Hd; reflexivity | discriminate Hd].
    + destruct b; cbn in Hd; [inversion Hd; reflexivity | discriminate Hd].
    + reflexivity.
    + destruct d; cbn in Hd; [inversion Hd; reflexivity | discriminate Hd].
  - symmetry. eapply Forall2_length; eauto.
  - eapply Forall2_impl; [|exact Hall].
    intros wire record (d & s & b & -> & Hget & -> & _).
    exists d, (dict_set d "node_id" (PBytes b)). repeat split.
    + eapply dict_set_keys; eauto.
    + intros key Hkey. now apply dict_get_set_other.
Qed.

(** A record without a [node_id], after records that decode, stops the
    loop with the [KeyError] of the lookup. *)
Lemma decode_node_ids_missing good : forall good' d rest,
  decode_node_ids good = Ok good' ->
  dict_get d "node_id" = None ->
  decode_node_ids (good ++ PDict d :: rest) = Raise (KeyError "node_id").
Proof.
  induction good as [|c good IH]; intros good' d rest Hgood Hget.
  - cbn. now rewrite Hget.
  - cbn in Hgood |- *.
    destruct (subscript c "node_id") as [node_id|]; [|discriminate Hgood].
    cbn in Hgood |- *.
    destruct (hexstr_to_bytes node_id) as [b|]; [|discriminate Hgood].
    cbn in Hgood |- *.
    destruct (store c "node_id" (PBytes b)) as [c'|]; [|discriminate Hgood].
    cbn in Hgood |- *.
    destruct (decode_node_ids good) as [good0|]; [|discriminate Hgood].
    now rewrite (IH good0 d rest eq_refl Hget).
Qed.

(** X17.  What [get_connections] does with an envelope it cannot use: no
    [connections] field is the [KeyError] of the lookup, a [connections]
    that is null, a boolean or a number is a [TypeError], and a list with a
    record that has no [node_id] (the records before it being in order) is
    the [KeyError] of that lookup.  The POST has been made all the same. *)
Theorem get_connections_bad_envelope w self node_type t d :
  fetch w self "get_connections" (connections_request node_type) "" =
    (t, Ok (PDict d)) ->
  (dict_get d "connections" = None ->
   get_connections w self node_type = (t, Raise (KeyError "connections"))) /\
  (forall c,
      dict_get d "connections" = Some c ->
      iterate c = Raise TypeError ->
      get_connections w self node_type = (t, Raise TypeError)) /\
  (forall good good' record rest,
      dict_get d "connections" = Some (PList (good ++ PDict record :: rest)) ->
      decode_node_ids good = Ok good' ->
      dict_get record "node_id" = None ->
      get_connections w self node_type = (t, Raise (KeyError "node_id"))).
Proof.
  intros Hrun. unfold get_connections. cbv zeta. rewrite Hrun.
  repeat split.
  - intros H. cbn [subscript]. now rewrite H.
  - intros c H Hc. cbn [subscript]. rewrite H. cbn [rbind]. now rewrite Hc.
  - intros good good' record rest H Hgood Hget. cbn [subscript]. rewrite H.
    cbn [rbind iterate].
    now rewrite (decode_node_ids_missing _ _ _ _ Hgood Hget).
Qed.

Lemma hex_length b : String.length (hex b) = (2 * List.length b)%nat.
Proof.
  induction b as [|x b IH]; [reflexivity|].
  rewrite hex_cons. cbn [String.length List.length]. rewrite IH. lia.
Qed.

(** X18.  The [node_id] that [close_connection] sends identifies the
    connection: it is two characters a byte, and two node ids give the same
    request body only if they are the same bytes. *)
Theorem close_connection_body_injective w self a b t r k u body :
  close_connection w self b = (t, r) ->
  In (k, EvPost u body) t ->
  body = PDict [("node_id", PStr (hex b))] /\
  String.length (hex b) = (2 * List.length b)%nat /\
  (body = PDict [("node_id", PStr (hex a))] -> a = b).
Proof.
  unfold close_connection. intros Hrun HIn.
  destruct (fetch_default_id _ _ _ _ _ _ Hrun) as (_ & _ & _ & Hpost).
  destruct (Hpost _ _ _ HIn) as [_ ->].
  repeat split; [apply hex_length|].
  intros Heq. inversion Heq as [Hhex].
  pose proof (hex_unhex a) as Ha. pose proof (hex_unhex b) as Hb.
  rewrite Hhex in Hb. congruence.
Qed.

(** ** More on shutdown *)

(** Where [await] returns, the task is done. *)
Lemma await_returns_done fuel : forall h L L' k,
  await fuel h L = Some (L', k) -> nth_error (tasks L') h = Some Done.
Proof.
  induction fuel as [|fuel IH]; intros h L L' k H; cbn [await] in H;
    destruct (nth_error (tasks L) h) as [[s|]|] eqn:Hh; try discriminate H;
    try (inversion H; subst; exact Hh).
  destruct (await fuel h (turn L)) as [[L1 k1]|] eqn:Hrec; [|discriminate H].
  inversion H; subst. eapply IH; eauto.
Qed.

Lemma await_done fuel h L :
  nth_error (tasks L) h = Some Done -> await fuel h L = Some (L, 0%nat).
Proof. intros H. destruct fuel; cbn [await]; now rewrite H. Qed.

(** A task with [s] suspensions to go, [k] turns later. *)
Lemma iter_turn_task k : forall s h L,
  nth_error (tasks L) h = Some (Pending s) ->
  nth_error (tasks (Nat.iter k turn L)) h =
    Some (if (s <? k)%nat then Done else Pending (s - k)).
Proof.
  induction k as [|k IH]; intros s h L H.
  - cbn. now rewrite Nat.sub_0_r.
  - rewrite Nat.iter_succ, (turn_task _ _ _ (IH _ _ _ H)).
    destruct (Nat.ltb_spec s k), (Nat.ltb_spec s (S k)); try lia.
    + reflexivity.
    + replace (s - k)%nat with 0%nat by lia. reflexivity.
    + replace (s - k)%nat with (S (s - S k)) by lia. reflexivity.
Qed.

(** X19.  Once [await_closed] has returned, calling it again returns at
    once and changes nothing. *)
Theorem await_closed_again_returns_at_once self L fuel L' k fuel' :
  await_closed fuel self L = Some (L', k) ->
  await_closed fuel' self L' = Some (L', 0%nat).
Proof.
  unfold await_closed. destruct (closing_task self) as [h|]; [|reflexivity].
  intros H. apply await_done. eapply await_returns_done; eauto.
Qed.

(** X20.  [close] overwrites the task of an earlier [close]: after two calls
    [await_closed] waits for the second task only, and may return while the
    first is still pending. *)
Theorem second_close_replaces_task s1 s2 self L fuel :
  let first := close s1 self L in
  let second := close s2 (fst first) (snd first) in
  (s2 < fuel)%nat ->
  closing_task (fst second) = Some (S (List.length (tasks L))) /\
  await_closed fuel (fst second) (snd second) =
    Some (Nat.iter (S s2) turn (snd second), S s2) /\
  nth_error (tasks (Nat.iter (S s2) turn (snd second))) (List.length (tasks L)) =
    Some (if (s1 <? S s2)%nat then Done else Pending (s1 - S s2)).
Proof.
  intros first second Hfuel.
  destruct (close_task s2 (fst first) (snd first)) as [Hh Hnth].
  fold second in Hh, Hnth.
  assert (Hlen : List.length (tasks (snd first)) = S (List.length (tasks L)))
    by (cbn; rewrite length_app; cbn; lia).
  rewrite Hlen in Hh, Hnth. split; [exact Hh|]. split.
  - unfold await_closed. rewrite Hh.
    now destruct (await_pending _ _ _ _ Hnth Hfuel).
  - apply iter_turn_task. cbn.
    rewrite nth_error_app1 by (rewrite length_app; cbn; lia).
    rewrite nth_error_app2 by lia. now rewrite Nat.sub_diag.
Qed.

(** ** The properties above, on runs *)

Lemma fetch_returns_only_first_attempt_witness :
  let run := fetch (steady always_appendable (answer 200 envelope_x1)) client0
               "healthz" (PDict []) "" in
  posts (fst run) = [0%nat] /\ sleeps (fst run) = 0%nat /\
  In (0%nat, EvJson envelope_x1) (fst run) /\
  exists success,
    subscript envelope_x1 "success" = Ok success /\ truthy success = true.
Proof.
  cbv zeta.
  apply (fetch_returns_only_first_attempt
           (steady always_appendable (answer 200 envelope_x1)) client0
           "healthz" (PDict []) "").
  reflexivity.
Defined.

Lemma fetch_sleeps_between_posts_witness :
  let run := fetch late_success client0 "healthz" (PDict []) "rpc.log" in
  S (sleeps (fst run)) = 5%nat /\ (sleeps (fst run) <= 4)%nat /\
  forall k secs, In (k, EvSleep secs) (fst run) -> secs = 1.
Proof.
  cbv zeta.
  apply (fetch_sleeps_between_posts late_success client0 "healthz" (PDict [])
           "rpc.log"
           (fst (fetch late_success client0 "healthz" (PDict []) "rpc.log"))
           (snd (fetch late_success client0 "healthz" (PDict []) "rpc.log"))).
  reflexivity.
Defined.

Lemma fetch_posts_same_request_witness :
  "https://localhost:8555/healthz?rpc.log" =
    (url client0 ++ "healthz" ++ "?" ++ "rpc.log")%string /\
  PDict [("verbose", PBool true)] = PDict [("verbose", PBool true)].
Proof.
  apply (fetch_posts_same_request late_success client0 "healthz"
           (PDict [("verbose", PBool true)]) "rpc.log"
           (fst (fetch late_success client0 "healthz"
                   (PDict [("verbose", PBool true)]) "rpc.log"))
           (snd (fetch late_success client0 "healthz"
                   (PDict [("verbose", PBool true)]) "rpc.log"))
           3%nat).
  - reflexivity.
  - in_trace.
Defined.

Lemma fetch_appends_only_to_id_witness :
  let target := "https://localhost:8555/healthz?rpc.log" in
  "rpc.log" = "rpc.log" /\ "rpc.log" <> "" /\
  can_append late_success "rpc.log" = true /\
  (retry_line late_success target = first_line late_success target \/
   retry_line late_success target = retry_line late_success target).
Proof.
  cbv zeta.
  apply (fetch_appends_only_to_id late_success client0 "healthz" (PDict [])
           "rpc.log"
           (fst (fetch late_success client0 "healthz" (PDict []) "rpc.log"))
           (snd (fetch late_success client0 "healthz" (PDict []) "rpc.log"))).
  - reflexivity.
  - in_trace.
Defined.

Lemma fetch_retries_only_after_404_witness :
  let run := fetch late_success client0 "healthz" (PDict []) "rpc.log" in
  let target := "https://localhost:8555/healthz?rpc.log" in
  In (3%nat, EvResponse 404) (fst run) /\
  In (3%nat, EvAppend "rpc.log" (retry_line late_success target)) (fst run) /\
  In (3%nat, EvSleep 1) (fst run) /\
  "rpc.log" <> "" /\ can_append late_success "rpc.log" = true.
Proof.
  cbv zeta.
  apply (fetch_retries_only_after_404 late_success client0 "healthz" (PDict [])
           "rpc.log" _
           (snd (fetch late_success client0 "healthz" (PDict []) "rpc.log"))
           3%nat (EvResponse 200)).
  - reflexivity.
  - in_trace.
Defined.

Lemma fetch_empty_id_single_post_witness :
  let run := fetch absent client0 "healthz" (PDict []) "" in
  posts (fst run) = [0%nat] /\ sleeps (fst run) = 0%nat /\
  appends (fst run) = [].
Proof.
  cbv zeta.
  apply (fetch_empty_id_single_post absent client0 "healthz" (PDict []) "" _
           (snd (fetch absent client0 "healthz" (PDict []) ""))).
  - reflexivity.
  - reflexivity.
Defined.

Lemma fetch_post_exception_propagates_witness :
  let run := fetch refusing client0 "healthz" (PDict []) "rpc.log" in
  snd run = Raise (ClientError "connection refused") /\
  posts (fst run) = [0%nat].
Proof.
  cbv zeta.
  apply (fetch_post_exception_propagates refusing client0 "healthz" (PDict [])
           "rpc.log" _ _ 0%nat "https://localhost:8555/healthz?rpc.log"
           (PDict [])).
  - reflexivity.
  - in_trace.
  - reflexivity.
Defined.

Lemma fetch_last_404_raises_witness :
  let run := fetch absent client0 "healthz" (PDict []) "rpc.log" in
  snd run = Raise (ClientResponseError 404) /\
  posts (fst run) = [0; 1; 2; 3; 4]%nat /\ sleeps (fst run) = 4%nat.
Proof.
  cbv zeta.
  apply (fetch_last_404_raises absent client0 "healthz" (PDict []) "rpc.log").
  - reflexivity.
  - in_trace.
Defined.

Lemma fetch_undecodable_body_raises_witness :
  let w := steady always_appendable
             (Ok {| status := 200; json := Raise ContentTypeError |}) in
  let run := fetch w client0 "healthz" (PDict []) "" in
  snd run = Raise ContentTypeError /\ posts (fst run) = [0%nat].
Proof.
  cbv zeta.
  apply (fetch_undecodable_body_raises
           (steady always_appendable
              (Ok {| status := 200; json := Raise ContentTypeError |}))
           client0 "healthz" (PDict []) "" _ _ 0%nat 200
           {| status := 200; json := Raise ContentTypeError |}).
  - reflexivity.
  - in_trace.
  - reflexivity.
  - cbn. lia.
  - reflexivity.
  - right. left. reflexivity.
Defined.

Lemma fetch_non_object_body_raises_witness :
  snd (fetch (answering (PList [PBool true])) client0 "healthz" (PDict []) "") =
    Raise TypeError.
Proof.
  apply (fetch_non_object_body_raises (answering (PList [PBool true])) client0
           "healthz" (PDict []) ""
           (fst (fetch (answering (PList [PBool true])) client0 "healthz"
                   (PDict []) ""))
           _ 0%nat (PList [PBool true])).
  - reflexivity.
  - in_trace.
  - discriminate.
Defined.

Lemma fetch_falsy_success_raises_witness :
  let run := fetch (answering (PDict [("success", PInt 0)])) client0 "healthz"
               (PDict []) "" in
  snd run = Raise (ValueError (PDict [("success", PInt 0)])) /\
  posts (fst run) = [0%nat].
Proof.
  cbv zeta.
  apply (fetch_falsy_success_raises (answering (PDict [("success", PInt 0)]))
           client0 "healthz" (PDict []) "" _ _ 0%nat [("success", PInt 0)]
           (PInt 0)).
  - reflexivity.
  - in_trace.
  - reflexivity.
  - reflexivity.
Defined.

Lemma fetch_truthy_success_returns_witness :
  let run := fetch (answering (PDict [("success", PStr "yes")])) client0
               "healthz" (PDict []) "" in
  snd run = Ok (PDict [("success", PStr "yes")]) /\ posts (fst run) = [0%nat].
Proof.
  cbv zeta.
  apply (fetch_truthy_success_returns
           (answering (PDict [("success", PStr "yes")])) client0 "healthz"
           (PDict []) "" _ _ [("success", PStr "yes")] (PStr "yes")).
  - reflexivity.
  - in_trace.
  - reflexivity.
  - reflexivity.
Defined.

Lemma fetch_404_is_retried_witness :
  let run := fetch late_success client0 "healthz" (PDict []) "rpc.log" in
  In (0%nat, EvSleep 1) (fst run) /\
  In (1%nat, EvPost "https://localhost:8555/healthz?rpc.log" (PDict []))
    (fst run).
Proof.
  cbv zeta.
  apply (fetch_404_is_retried late_success client0 "healthz" (PDict [])
           "rpc.log" _
           (snd (fetch late_success client0 "healthz" (PDict []) "rpc.log"))).
  - discriminate.
  - reflexivity.
  - reflexivity.
  - in_trace.
  - discriminate.
Defined.

Lemma fetch_five_404s_raises_witness :
  let run := fetch absent client0 "stop_node" (PDict []) "rpc.log" in
  snd run = Raise (ClientResponseError 404) /\
  posts (fst run) = [0; 1; 2; 3; 4]%nat /\ sleeps (fst run) = 4%nat.
Proof.
  cbv zeta.
  apply (fetch_five_404s_raises absent client0 "stop_node" (PDict []) "rpc.log").
  - discriminate.
  - reflexivity.
  - intros k _. exists {| status := 404; json := Raise ContentTypeError |}.
    split; reflexivity.
  - reflexivity.
Defined.

Lemma bindings_post_once_witness :
  posts (fst (healthz absent client0)) = [0%nat] /\
  sleeps (fst (open_connection absent client0 "node.example" 8444)) = 0%nat /\
  appends (fst (get_connections absent client0 None)) = [].
Proof.
  destruct (bindings_post_once absent client0)
    as (Hget & Hopen & _ & _ & Hhealth).
  destruct Hhealth as (Hposts & _).
  destruct (Hopen "node.example" 8444) as (_ & Hsleeps & _).
  destruct (Hget None) as (_ & _ & Happends & _).
  auto.
Defined.

Lemma get_connections_keeps_other_fields_witness :
  exists envelope connections items items',
    fetch (answering envelope_conns) client0 "get_connections"
      (connections_request None) "" =
      (fst (get_connections (answering envelope_conns) client0 None),
       Ok envelope) /\
    subscript envelope "connections" = Ok connections /\
    iterate connections = Ok items /\
    iterate (PList [PDict [("node_id", PBytes [xab; x01]);
                           ("peer_port", PInt 8444)]]) = Ok items' /\
    List.length items' = List.length items /\
    Forall2 (fun wire record =>
               exists d d',
                 wire = PDict d /\ record = PDict d' /\ keys d' = keys d /\
                 forall key, key <> "node_id" ->
                             dict_get d' key = dict_get d key)
      items items'.
Proof.
  apply (get_connections_keeps_other_fields (answering envelope_conns) client0
           None).
  reflexivity.
Defined.

Lemma get_connections_bad_envelope_witness :
  get_connections (answering envelope_ok) client0 None =
    (fst (fetch (answering envelope_ok) client0 "get_connections" (PDict []) ""),
     Raise (KeyError "connections")).
Proof.
  apply (get_connections_bad_envelope (answering envelope_ok) client0 None
           _ [("success", PBool true)]).
  - reflexivity.
  - reflexivity.
Defined.

Lemma close_connection_body_injective_witness :
  PDict [("node_id", PStr "ab01")] = PDict [("node_id", PStr (hex [xab; x01]))] /\
  String.length (hex [xab; x01]) = 4%nat /\
  (PDict [("node_id", PStr "ab01")] = PDict [("node_id", PStr (hex [xab; x01]))] ->
   [xab; x01] = [xab; x01]).
Proof.
  apply (close_connection_body_injective (answering envelope_ok) client0
           [xab; x01] [xab; x01]
           (fst (close_connection (answering envelope_ok) client0 [xab; x01]))
           (snd (close_connection (answering envelope_ok) client0 [xab; x01]))
           0%nat "https://localhost:8555/close_connection?").
  - reflexivity.
  - in_trace.
Defined.

Lemma await_closed_again_returns_at_once_witness :
  let L := {| session_closed := false; tasks := [] |} in
  await_closed 0 (fst (close 2 client0 L))
    {| session_closed := true; tasks := [Done] |} =
    Some ({| session_closed := true; tasks := [Done] |}, 0%nat).
Proof.
  cbv zeta.
  apply (await_closed_again_returns_at_once
           (fst (close 2 client0 {| session_closed := false; tasks := [] |}))
           (snd (close 2 client0 {| session_closed := false; tasks := [] |}))
           5%nat _ 3%nat 0%nat).
  reflexivity.
Defined.

Lemma second_close_replaces_task_witness :
  let L := {| session_closed := false; tasks := [] |} in
  let first := close 7 client0 L in
  let second := close 1 (fst first) (snd first) in
  closing_task (fst second) = Some 1%nat /\
  await_closed 4 (fst second) (snd second) =
    Some ({| session_closed := true; tasks := [Pending 5; Done] |}, 2%nat) /\
  nth_error (tasks (Nat.iter 2 turn (snd second))) 0 = Some (Pending 5).
Proof.
  cbv zeta.
  apply (second_close_replaces_task 7 1 client0
           {| session_closed := false; tasks := [] |} 4).
  lia.
Defined.
